(** * Rubik-Solver-AI: the colour scanning path and the cube-state update

    A shallow embedding of the computational slice of the application:
    - [types.ts]      : [Color], [Face], [CubeState];
    - [constants.tsx] : [createFace], [INITIAL_CUBE_STATE], [COLOR_MAP];
    - [Scanner.tsx]   : [rgbToLab], [COLOR_CENTROIDS], [getClosestColor],
                        the sampling loops of [captureFace];
    - [App.tsx]       : [handleFaceScan], the scanner callback, the
                        playback effect;
    - [Cube3D.tsx]    : the cells read by the sticker loops;
    - [SolverDashboard.tsx] : [data] and the bar colours.

    Numbers.  A JavaScript [number] is read as a real number: the decimal
    constants of the source are the exact decimals, [1/3] is one third,
    and [+ - * /], [Math.sqrt] and [Math.pow] are the exact operations.
    Rounding of IEEE doubles is outside this model.  [Infinity] and [NaN],
    which the source relies on in two places (the initial [minDistance],
    and an average over an empty or ragged buffer), are modelled
    explicitly by [ExtNumber] and by [option]. *)

From Stdlib Require Import Reals Lra Lia ZArith List String Ascii.
From stdpp Require Import base gmap strings list.

Local Open Scope R_scope.

(* ================================================================== *)
(** * Part I: the program *)
(* ================================================================== *)

(** ** types.ts *)

Inductive Color : Type := white | yellow | red | orange | blue | green.

#[global] Instance Color_eq_dec : EqDecision Color.
Proof. solve_decision. Defined.

(** [Face = Color[][]], a 3x3 array by convention only. *)
Definition Face : Type := list (list Color).

(** [CubeState]: a JavaScript object keyed by the face identifiers.  The
    update in [App.tsx] takes its key as a plain [string], so the object is
    a finite map from strings. *)
Abbreviation CubeState := (gmap string Face).

(** ** constants.tsx *)

Definition createFace (color : Color) : Face :=
  [ [color; color; color];
    [color; color; color];
    [color; color; color] ].

Definition INITIAL_CUBE_STATE : CubeState :=
  <["U"%string := createFace white]>
  (<["D"%string := createFace yellow]>
  (<["L"%string := createFace orange]>
  (<["R"%string := createFace red]>
  (<["F"%string := createFace green]>
  (<["B"%string := createFace blue]> ∅))))).

Definition COLOR_MAP (c : Color) : string :=
  match c with
  | white  => "#FFFFFF"
  | yellow => "#FFD700"
  | red    => "#DC2626"
  | orange => "#F97316"
  | blue   => "#2563EB"
  | green  => "#16A34A"
  end.

(** The RGB reading of a ["#RRGGBB"] string, as a renderer decodes the
    entries of [COLOR_MAP]. *)
Definition hexDigit (c : ascii) : option Z :=
  let n := Z.of_nat (nat_of_ascii c) in
  if ((48 <=? n) && (n <=? 57))%Z then Some (n - 48)%Z
  else if ((65 <=? n) && (n <=? 70))%Z then Some (n - 55)%Z
  else if ((97 <=? n) && (n <=? 102))%Z then Some (n - 87)%Z
  else None.

Definition hexByte (hi lo : ascii) : option Z :=
  match hexDigit hi, hexDigit lo with
  | Some h, Some l => Some (16 * h + l)%Z
  | _, _ => None
  end.

Definition hexToRgb (s : string) : option (Z * Z * Z) :=
  match s with
  | String "#" (String r1 (String r0 (String g1 (String g0
      (String b1 (String b0 EmptyString)))))) =>
      match hexByte r1 r0, hexByte g1 g0, hexByte b1 b0 with
      | Some r, Some g, Some b => Some (r, g, b)
      | _, _, _ => None
      end
  | _ => None
  end.

(** ** Scanner.tsx: numbers *)

(** [Math.pow x y] on finite arguments.  A positive base gives
    [exp (y * ln x)].  A base [<= 0] with an integer exponent gives the
    repeated product (so [Math.pow d 2 = d * d] also for negative [d]);
    [0] to a positive non-integer power gives [0].  JavaScript answers
    [NaN] for a negative base with a non-integer exponent and [Infinity]
    for [0] to a negative power; the scanner never passes such arguments,
    and both read as [0] here. *)
Definition Math_pow (x y : R) : R :=
  if Rlt_dec 0 x then Rpower x y
  else if Req_dec_T y (IZR (Int_part y)) then powerRZ x (Int_part y)
  else 0.

Definition Math_sqrt (x : R) : R := sqrt x.

(** A [number] that may be [Infinity]: the running minimum of the
    classifier starts there. *)
Inductive ExtNumber : Type :=
  | Infinity : ExtNumber
  | Finite : R -> ExtNumber.

(** [d < m] for a finite [d]. *)
Definition lt_ext (d : R) (m : ExtNumber) : bool :=
  match m with
  | Infinity => true
  | Finite m' => if Rlt_dec d m' then true else false
  end.

(** ** Scanner.tsx: LAB colour utilities *)

Definition Triple : Type := (R * R * R)%type.

Definition rgbToLab (r g b : R) : Triple :=
  (* Normalize RGB to [0, 1] *)
  let rN := r / 255 in
  let gN := g / 255 in
  let bN := b / 255 in
  let rN := if Rgt_dec rN 0.04045
            then Math_pow ((rN + 0.055) / 1.055) 2.4 else rN / 12.92 in
  let gN := if Rgt_dec gN 0.04045
            then Math_pow ((gN + 0.055) / 1.055) 2.4 else gN / 12.92 in
  let bN := if Rgt_dec bN 0.04045
            then Math_pow ((bN + 0.055) / 1.055) 2.4 else bN / 12.92 in
  (* RGB to XYZ (D65) *)
  let x := (rN * 0.4124 + gN * 0.3576 + bN * 0.1805) * 100 in
  let y := (rN * 0.2126 + gN * 0.7152 + bN * 0.0722) * 100 in
  let z := (rN * 0.0193 + gN * 0.1192 + bN * 0.9505) * 100 in
  (* XYZ to LAB *)
  let x := x / 95.047 in
  let y := y / 100.000 in
  let z := z / 108.883 in
  let x := if Rgt_dec x 0.008856
           then Math_pow x (1 / 3) else (7.787 * x) + (16 / 116) in
  let y := if Rgt_dec y 0.008856
           then Math_pow y (1 / 3) else (7.787 * y) + (16 / 116) in
  let z := if Rgt_dec z 0.008856
           then Math_pow z (1 / 3) else (7.787 * z) + (16 / 116) in
  ((116 * y) - 16, 500 * (x - y), 200 * (y - z)).

(** [COLOR_CENTROIDS], as [Object.entries] enumerates it: string keys in
    insertion order. *)
Definition COLOR_CENTROIDS : list (Color * Triple) :=
  [ (white,  (95, 0, 0));
    (yellow, (85, -10, 80));
    (red,    (45, 60, 45));
    (orange, (65, 45, 65));
    (blue,   (35, 10, -50));
    (green,  (55, -50, 40)) ].

(** Delta E: the distance expression of the loop body. *)
Definition distance (lab centroid : Triple) : R :=
  let '(l0, l1, l2) := lab in
  let '(c0, c1, c2) := centroid in
  Math_sqrt (Math_pow (l0 - c0) 2 + Math_pow (l1 - c1) 2 + Math_pow (l2 - c2) 2).

(** The radicand of [distance], with the squares written as products. *)
Definition sqDistance (lab centroid : Triple) : R :=
  let '(l0, l1, l2) := lab in
  let '(c0, c1, c2) := centroid in
  (l0 - c0) * (l0 - c0) + (l1 - c1) * (l1 - c1) + (l2 - c2) * (l2 - c2).

(** The distance from [lab] to the centroid of a table entry. *)
Definition entryDistance (lab : Triple) (entry : Color * Triple) : R :=
  distance lab (snd entry).

(** One iteration of [for (const [color, centroid] of ...)] on the pair
    [(minDistance, closest)]. *)
Definition closestStep (lab : Triple) (st : ExtNumber * Color)
    (entry : Color * Triple) : ExtNumber * Color :=
  let '(minDistance, closest) := st in
  let '(color, centroid) := entry in
  let d := distance lab centroid in
  if lt_ext d minDistance then (Finite d, color) else (minDistance, closest).

(** The loop over an arbitrary table, then the selection over
    [COLOR_CENTROIDS]. *)
Definition closestIn (table : list (Color * Triple)) (lab : Triple) : Color :=
  snd (fold_left (closestStep lab) table (Infinity, white)).

Definition closestToLab (lab : Triple) : Color := closestIn COLOR_CENTROIDS lab.

Definition getClosestColor (r g b : R) : Color :=
  let lab := rgbToLab r g b in
  closestToLab lab.

(** ** Scanner.tsx: the sampling loops of [captureFace] *)

(** The accumulation
    [for (let i = 0; i < imgData.length; i += 4) { r += imgData[i]; ... }]
    over an RGBA byte buffer.  A buffer that ends before the blue byte of
    a pixel makes the source add [undefined]: a sum becomes [NaN], which
    is [None] here (one [NaN] channel makes all three LAB coordinates
    [NaN]). *)
Fixpoint sumChannels (imgData : list Z) (acc : Triple) : option Triple :=
  match imgData with
  | [] => Some acc
  | pr :: pg :: pb :: tl =>
      let '(r, g, b) := acc in
      let acc' := (r + IZR pr, g + IZR pg, b + IZR pb) in
      match tl with
      | [] => Some acc'
      | _ :: rest => sumChannels rest acc'
      end
  | _ => None
  end.

(** The layout of an [ImageData] buffer: four bytes per pixel, in the
    order red, green, blue, alpha. *)
Definition Pixel : Type := (Z * Z * Z * Z)%type.

Definition red_of (p : Pixel) : Z := let '(r, _, _, _) := p in r.
Definition green_of (p : Pixel) : Z := let '(_, g, _, _) := p in g.
Definition blue_of (p : Pixel) : Z := let '(_, _, b, _) := p in b.

Fixpoint pixelBytes (ps : list Pixel) : list Z :=
  match ps with
  | [] => []
  | (r, g, b, a) :: rest => r :: g :: b :: a :: pixelBytes rest
  end.

(** The arithmetic mean of one channel over a list of pixels. *)
Definition channelSum (channel : Pixel -> Z) (ps : list Pixel) : Z :=
  fold_right Z.add 0%Z (map channel ps).

Definition channelMean (channel : Pixel -> Z) (ps : list Pixel) : R :=
  IZR (channelSum channel ps) / INR (length ps).

(** [r /= (imgData.length / 4)] and likewise for [g] and [b].  On an empty
    buffer the quotient is [0 / 0], again [NaN]. *)
Definition averageRegion (imgData : list Z) : option Triple :=
  match imgData with
  | [] => None
  | _ =>
      match sumChannels imgData (0, 0, 0) with
      | Some (r, g, b) =>
          let n := INR (length imgData) / 4 in
          Some (r / n, g / n, b / n)
      | None => None
      end
  end.

(** [getClosestColor(r, g, b)] on the averaged channels.  With [NaN]
    channels every distance is [NaN], no comparison [distance < minDistance]
    succeeds, and the initial ['white'] is returned. *)
Definition classifySample (avg : option Triple) : Color :=
  match avg with
  | Some (r, g, b) => getClosestColor r g b
  | None => white
  end.

(** The canvas after [ctx.drawImage(video, 0, 0)]: its size and the pixel
    read [ctx.getImageData(sx, sy, sw, sh).data]. *)
Record Canvas : Type := mkCanvas {
  width : Z;
  height : Z;
  getImageData : R -> R -> R -> R -> list Z
}.

(** [for (let i = 0; i < n; i++) out.push(body(i))]. *)
Definition forPush {A : Type} (n : nat) (body : nat -> A) : list A :=
  map body (seq 0 n).

Section Regions.
Variable canvas : Canvas.

Definition size : R := Rmin (IZR (width canvas)) (IZR (height canvas)) * 0.5.
Definition startX : R := (IZR (width canvas) - size) / 2.
Definition startY : R := (IZR (height canvas) - size) / 2.
Definition step : R := size / 3.

(** Sample area center of the cell at [row], [col]. *)
Definition centerX (col : nat) : R := startX + INR col * step + step / 2.
Definition centerY (row : nat) : R := startY + INR row * step + step / 2.

(** The bytes of the 10x10 region read for one cell. *)
Definition regionData (row col : nat) : list Z :=
  getImageData canvas (centerX col - 5) (centerY row - 5) 10 10.

Definition detectCell (row col : nat) : Color :=
  classifySample (averageRegion (regionData row col)).

Definition detectFace : Face :=
  forPush 3 (fun row => forPush 3 (fun col => detectCell row col)).
End Regions.

Definition faces : list string :=
  ["Front"; "Back"; "Up"; "Down"; "Left"; "Right"]%string.
Definition faceKeys : list string := ["F"; "B"; "U"; "D"; "L"; "R"]%string.

(** [captureFace]: nothing happens without a frame or once six faces are
    captured; otherwise the detected face is reported under the next face
    key and the face name is appended to [capturedFaces]. *)
Definition captureFace (frame : option Canvas) (capturedFaces : list string)
    : option (string * Face) * list string :=
  match frame with
  | None => (None, capturedFaces)
  | Some canvas =>
      if (6 <=? length capturedFaces)%nat then (None, capturedFaces)
      else
        let detectedFace := detectFace canvas in
        let currentKey := nth (length capturedFaces) faceKeys EmptyString in
        (Some (currentKey, detectedFace),
         capturedFaces ++ [nth (length capturedFaces) faces EmptyString])
  end.

(** ** App.tsx *)

(** [setCubeState(prev => ({ ...prev, [faceKey]: faceData }))]. *)
Definition handleFaceScan (faceKey : string) (faceData : Face)
    (prev : CubeState) : CubeState :=
  <[faceKey := faceData]> prev.

(** ** The converter as the specification words it

    Stage by stage: normalisation, gamma expansion, the 3x3 matrix, the
    reference white point, the cube-root-like function, the final linear
    formulas.  Compared with [rgbToLab] below. *)
Module Spec.

Definition normalize (c : R) : R := c / 255.

Definition gamma_expand (v : R) : R :=
  if Rle_dec v 0.04045 then v / 12.92
  else Rpower ((v + 0.055) / 1.055) 2.4.

Definition matrix : Triple * Triple * Triple :=
  ((41.24, 35.76, 18.05),
   (21.26, 71.52, 7.22),
   (1.93, 11.92, 95.05)).

Definition dot (row v : Triple) : R :=
  let '(m0, m1, m2) := row in
  let '(v0, v1, v2) := v in
  m0 * v0 + m1 * v1 + m2 * v2.

Definition to_xyz (lin : Triple) : Triple :=
  let '(row_x, row_y, row_z) := matrix in
  (dot row_x lin, dot row_y lin, dot row_z lin).

Definition white_point : Triple := (95.047, 100.000, 108.883).

Definition cube_root (v : R) : R := Rpower v (/ 3).

Definition lab_f (v : R) : R :=
  if Rgt_dec v 0.008856 then cube_root v else 7.787 * v + 16 / 116.

Definition rgb_to_lab (r g b : R) : Triple :=
  let lin := (gamma_expand (normalize r),
              gamma_expand (normalize g),
              gamma_expand (normalize b)) in
  let '(x, y, z) := to_xyz lin in
  let '(xn, yn, zn) := white_point in
  let fx := lab_f (x / xn) in
  let fy := lab_f (y / yn) in
  let fz := lab_f (z / zn) in
  (116 * fy - 16, 500 * (fx - fy), 200 * (fy - fz)).

End Spec.

(** ** Scanner.tsx: a scanning session *)

(** Successive presses of the capture button on one mounted scanner, one
    frame (or none) per press: the calls made to [onScanComplete], in
    order, and the final [capturedFaces]. *)
Fixpoint captureSession (frames : list (option Canvas))
    (capturedFaces : list string) : list (string * Face) * list string :=
  match frames with
  | [] => ([], capturedFaces)
  | frame :: rest =>
      let '(report, capturedFaces') := captureFace frame capturedFaces in
      let '(reports, final) := captureSession rest capturedFaces' in
      (match report with
       | Some call => call :: reports
       | None => reports
       end, final)
  end.

(** The colour channels of a pixel, without its alpha byte. *)
Definition rgb_of (p : Pixel) : Z * Z * Z := (red_of p, green_of p, blue_of p).

(** ** App.tsx: the scan view *)

Inductive View : Type := home | scan | solve | stats.

(** A run of [handleFaceScan] calls, oldest first. *)
Definition scanAll (calls : list (string * Face)) (prev : CubeState)
    : CubeState :=
  fold_left (fun st call => handleFaceScan (fst call) (snd call) st) calls prev.

(** The callback handed to the scanner,
    [(key, data) => { handleFaceScan(key, data);
       if (Object.keys(cubeState).length >= 5) handleAllFacesComplete(); }],
    on the cube state and view of the render that created it:
    [handleAllFacesComplete] is [setView('solve')]. *)
Definition onScanComplete (key : string) (data : Face)
    (st : CubeState * View) : CubeState * View :=
  let '(cubeState, view) := st in
  (handleFaceScan key data cubeState,
   if (5 <=? stdpp.base.size cubeState)%nat then solve else view).

(** The part of the application state the scan path touches.  The scanner
    is rendered by [{view === 'scan' && (<Scanner ... />)}]: it is mounted
    exactly in the scan view, and its [capturedFaces] state starts at [[]]
    on every mount ([useState<string[]>([])]). *)
Record AppState : Type := mkApp {
  cubeState : CubeState;
  view : View;
  scanner : option (list string)
}.

Definition initialApp : AppState := mkApp INITIAL_CUBE_STATE home None.

(** Rendering with view [v]: the scanner keeps its state while the scan
    view stays, is created fresh on entering it and dropped on leaving. *)
Definition render (cube : CubeState) (v : View)
    (mounted : option (list string)) : AppState :=
  mkApp cube v
    match v with
    | scan => match mounted with
              | Some capturedFaces => Some capturedFaces
              | None => Some []
              end
    | _ => None
    end.

Definition setView (v : View) (st : AppState) : AppState :=
  render (cubeState st) v (scanner st).

(** A press of the capture button, which exists only on a mounted
    scanner: [captureFace], then the callback, then the re-render. *)
Definition pressCapture (frame : option Canvas) (st : AppState) : AppState :=
  match scanner st with
  | None => st
  | Some capturedFaces =>
      match captureFace frame capturedFaces with
      | (Some (key, face), capturedFaces') =>
          let '(cube', view') :=
            onScanComplete key face (cubeState st, view st) in
          render cube' view' (Some capturedFaces')
      | (None, _) => st
      end
  end.

Inductive Action : Type :=
  | Navigate : View -> Action
  | PressCapture : option Canvas -> Action.

Definition act (st : AppState) (a : Action) : AppState :=
  match a with
  | Navigate v => setView v st
  | PressCapture frame => pressCapture frame st
  end.

(** What every application state reached from [initialApp] satisfies:
    a mounted scanner has captured nothing yet, the cube state has at
    least five keys, and only the face under F may differ from the
    initial one. *)
Definition scanInvariant (st : AppState) : Prop :=
  (scanner st = None \/ (scanner st = Some [] /\ view st = scan)) /\
  (5 <= stdpp.base.size (cubeState st))%nat /\
  forall k : string, k <> "F"%string ->
    cubeState st !! k = INITIAL_CUBE_STATE !! k.

(** ** App.tsx: solution playback *)

(** [Move] is a union of string literals; the solver casts whatever the
    service returns, so a move is a string at run time. *)
Definition Move : Type := string.

Record Solution : Type := mkSolution {
  moves : list Move;
  solverName : string;
  timeMs : R;
  explanation : option string
}.

Record Playback : Type := mkPlayback {
  solutions : list Solution;
  activeSolutionIdx : option nat;
  playbackIdx : nat;
  isPlaying : bool
}.

Definition startPlayback (idx : nat) (st : Playback) : Playback :=
  mkPlayback (solutions st) (Some idx) 0 true.

(** One run of the playback effect, with its 1200 ms timer firing
    undisturbed when it sets one.  [None]: [solutions[activeSolutionIdx]]
    is [undefined] and reading its [moves] throws. *)
Definition playbackEffect (st : Playback) : option Playback :=
  if isPlaying st then
    match activeSolutionIdx st with
    | Some idx =>
        match solutions st !! idx with
        | Some solution =>
            if (playbackIdx st <? length (moves solution))%nat
            then Some (mkPlayback (solutions st) (activeSolutionIdx st)
                         (playbackIdx st + 1) (isPlaying st))
            else Some (mkPlayback (solutions st) (activeSolutionIdx st)
                         (playbackIdx st) false)
        | None => None
        end
    | None => Some st
    end
  else Some st.

(** [n] runs of the effect in a row. *)
Fixpoint playbackRuns (n : nat) (st : Playback) : option Playback :=
  match n with
  | O => Some st
  | S n' =>
      match playbackEffect st with
      | Some st' => playbackRuns n' st'
      | None => None
      end
  end.

(** ** Cube3D.tsx: which cell each sticker shows *)

(** [for (let x = -1; x <= 1; x++)], likewise for [y] and [z]. *)
Definition gridCoords : list Z := [-1; 0; 1]%Z.

(** The [addSticker] calls for the cubie at [(x, y, z)], in source order:
    for each call the face key and the [row], [col] of the cell whose
    colour it reads.  Position and rotation of a sticker are constants of
    its face and are not part of this model. *)
Definition cubieStickers (x y z : Z) : list (string * Z * Z) :=
  ((if (x =? 1) then [("R"%string, 1 - y, 1 - z)] else []) ++
   (if (x =? -1) then [("L"%string, 1 - y, z + 1)] else []) ++
   (if (y =? 1) then [("U"%string, z + 1, x + 1)] else []) ++
   (if (y =? -1) then [("D"%string, 1 - z, x + 1)] else []) ++
   (if (z =? 1) then [("F"%string, 1 - y, x + 1)] else []) ++
   (if (z =? -1) then [("B"%string, 1 - y, 1 - x)] else []))%Z.

(** The three nested loops over the 27 cubies. *)
Definition allStickers : list (string * Z * Z) :=
  flat_map (fun x =>
    flat_map (fun y =>
      flat_map (fun z => cubieStickers x y z) gridCoords) gridCoords)
    gridCoords.

(** [xs[i]] for an integer index: [undefined] outside the array. *)
Definition at_index {A : Type} (xs : list A) (i : Z) : option A :=
  if (i <? 0)%Z then None else xs !! Z.to_nat i.

(** [state.K[row][col]].  [None] when the face, the row or the cell is
    missing: the source then throws or gets [undefined]. *)
Definition stickerColor (state : CubeState) (cell : string * Z * Z)
    : option Color :=
  let '(key, row, col) := cell in
  match state !! key with
  | Some face =>
      match at_index face row with
      | Some rowColors => at_index rowColors col
      | None => None
      end
  | None => None
  end.

(** ** SolverDashboard.tsx *)

(** [s.split(' ')[0]]: the characters before the first space. *)
Fixpoint firstWord (s : string) : string :=
  match s with
  | EmptyString => EmptyString
  | String c rest =>
      if Ascii.eqb c " " then EmptyString else String c (firstWord rest)
  end.

(** [data]: for each solution its [{ name, moves, time }]. *)
Definition data (sols : list Solution) : list (string * nat * R) :=
  map (fun s => (firstWord (solverName s), length (moves s), timeMs s)) sols.

Definition COLORS : list string :=
  ["#3B82F6"; "#8B5CF6"; "#10B981"; "#F59E0B"]%string.

(** The [fill] of the cell at [index] in the moves chart and in the time
    chart. *)
Definition movesFill (index : nat) : option string :=
  COLORS !! (index mod length COLORS)%nat.

Definition timeFill (index : nat) : option string :=
  COLORS !! ((index + 2) mod length COLORS)%nat.

(* ================================================================== *)
(** * Part II: properties *)
(* ================================================================== *)

(** ** [Math.pow] on the arguments the scanner uses *)

Lemma Math_pow_pos (x y : R) : 0 < x -> Math_pow x y = Rpower x y.
Proof.
  intros Hx. unfold Math_pow. destruct (Rlt_dec 0 x); [reflexivity | lra].
Qed.

Lemma Int_part_2 : Int_part 2 = 2%Z.
Proof. symmetry. apply Int_part_spec. lra. Qed.

Lemma Math_pow_2 (x : R) : Math_pow x 2 = x * x.
Proof.
  unfold Math_pow. destruct (Rlt_dec 0 x) as [Hx | Hx].
  - replace 2 with (INR 2) by (simpl; lra).
    rewrite Rpower_pow by assumption. simpl. ring.
  - rewrite Int_part_2.
    destruct (Req_dec_T 2 (IZR 2)) as [_ | Hne]; [| exfalso; apply Hne; reflexivity].
    simpl. ring.
Qed.

Lemma Rpower_one (y : R) : Rpower 1 y = 1.
Proof. unfold Rpower. rewrite ln_1, Rmult_0_r. apply exp_0. Qed.

(** The real cube root: the third power of [Rpower x (1/3)] is [x]. *)
Lemma Rpower_third_cube (x : R) : 0 < x -> Rpower x (1 / 3) ^ 3 = x.
Proof.
  intros Hx. rewrite <- Rpower_pow by apply exp_pos.
  rewrite Rpower_mult. replace (1 / 3 * INR 3) with 1 by (simpl; lra).
  apply Rpower_1; assumption.
Qed.

(** The power law: the fifth power of [Rpower x 2.4] is [x ^ 12]. *)
Lemma Rpower_2_4_fifth (x : R) : 0 < x -> Rpower x 2.4 ^ 5 = x ^ 12.
Proof.
  intros Hx. rewrite <- Rpower_pow by apply exp_pos.
  rewrite Rpower_mult. replace (2.4 * INR 5) with (INR 12) by (simpl; lra).
  apply Rpower_pow; assumption.
Qed.

(** ** C1: the converter against the specified algorithm *)

Lemma gamma_branch (v : R) :
  (if Rgt_dec v 0.04045 then Math_pow ((v + 0.055) / 1.055) 2.4 else v / 12.92)
  = Spec.gamma_expand v.
Proof.
  unfold Spec.gamma_expand.
  destruct (Rgt_dec v 0.04045) as [Hgt | Hngt];
    destruct (Rle_dec v 0.04045) as [Hle | Hnle]; try lra.
  apply Math_pow_pos. apply Rdiv_lt_0_compat; lra.
Qed.

Lemma lab_f_branch (v : R) :
  (if Rgt_dec v 0.008856 then Math_pow v (1 / 3) else 7.787 * v + 16 / 116)
  = Spec.lab_f v.
Proof.
  unfold Spec.lab_f, Spec.cube_root.
  destruct (Rgt_dec v 0.008856) as [Hgt | Hngt]; [| reflexivity].
  rewrite Math_pow_pos by lra. f_equal. lra.
Qed.

Lemma rgbToLab_spec_eq (r g b : R) : rgbToLab r g b = Spec.rgb_to_lab r g b.
Proof.
  unfold rgbToLab. cbv zeta. rewrite !gamma_branch, !lab_f_branch.
  unfold Spec.rgb_to_lab, Spec.to_xyz, Spec.matrix, Spec.dot,
    Spec.white_point, Spec.normalize.
  set (rl := Spec.gamma_expand (r / 255)).
  set (gl := Spec.gamma_expand (g / 255)).
  set (bl := Spec.gamma_expand (b / 255)).
  replace ((rl * 0.4124 + gl * 0.3576 + bl * 0.1805) * 100 / 95.047)
    with ((41.24 * rl + 35.76 * gl + 18.05 * bl) / 95.047) by lra.
  replace ((rl * 0.2126 + gl * 0.7152 + bl * 0.0722) * 100 / 100.000)
    with ((21.26 * rl + 71.52 * gl + 7.22 * bl) / 100.000) by lra.
  replace ((rl * 0.0193 + gl * 0.1192 + bl * 0.9505) * 100 / 108.883)
    with ((1.93 * rl + 11.92 * gl + 95.05 * bl) / 108.883) by lra.
  reflexivity.
Qed.

(** C1.  On 8-bit channel intensities [rgbToLab] computes exactly the
    specified algorithm: normalisation to [0,1], piecewise gamma expansion
    (linear at or below 0.04045, power law with exponent 2.4 above), the
    fixed 3x3 matrix, division by the reference white point, the piecewise
    cube-root function (cube root above 0.008856, else
    [7.787 v + 16/116]) and the final linear formulas
    [(116 fy - 16, 500 (fx - fy), 200 (fy - fz))]. *)
Theorem rgbToLab_follows_specified_algorithm (r g b : Z) :
  (0 <= r <= 255)%Z -> (0 <= g <= 255)%Z -> (0 <= b <= 255)%Z ->
  rgbToLab (IZR r) (IZR g) (IZR b) = Spec.rgb_to_lab (IZR r) (IZR g) (IZR b).
Proof. intros _ _ _. apply rgbToLab_spec_eq. Qed.

Lemma rgbToLab_follows_specified_algorithm_witness :
  rgbToLab (IZR 255) (IZR 215) (IZR 0)
  = Spec.rgb_to_lab (IZR 255) (IZR 215) (IZR 0).
Proof. apply (rgbToLab_follows_specified_algorithm 255 215 0); lia. Defined.

(** ** C6: Delta E *)

Lemma sqDistance_nonneg (p q : Triple) : 0 <= sqDistance p q.
Proof.
  destruct p as [[p0 p1] p2], q as [[q0 q1] q2]. simpl.
  pose proof (Rle_0_sqr (p0 - q0)). pose proof (Rle_0_sqr (p1 - q1)).
  pose proof (Rle_0_sqr (p2 - q2)). unfold Rsqr in *. lra.
Qed.

Lemma sqDistance_sym (p q : Triple) : sqDistance p q = sqDistance q p.
Proof. destruct p as [[p0 p1] p2], q as [[q0 q1] q2]. simpl. ring. Qed.

Lemma distance_sqrt (p q : Triple) : distance p q = sqrt (sqDistance p q).
Proof.
  destruct p as [[p0 p1] p2], q as [[q0 q1] q2].
  unfold distance, Math_sqrt, sqDistance. rewrite !Math_pow_2. reflexivity.
Qed.

Lemma distance_lt (p q q' : Triple) :
  sqDistance p q < sqDistance p q' -> distance p q < distance p q'.
Proof.
  intros H. rewrite !distance_sqrt.
  apply sqrt_lt_1; auto using sqDistance_nonneg.
Qed.

(** C6.  The Euclidean distance of the classifier is symmetric and
    non-negative on every pair of real 3-tuples. *)
Theorem distance_symmetric_nonneg (p q : Triple) :
  distance p q = distance q p /\ 0 <= distance p q.
Proof.
  rewrite !distance_sqrt. split.
  - f_equal. apply sqDistance_sym.
  - apply sqrt_pos.
Qed.

(** ** The selection loop: an arg-min with first-encountered ties *)

Section Selection.
Variable lab : Triple.

Local Abbreviation dist := (entryDistance lab).

Lemma lt_ext_true (d : R) (m : ExtNumber) :
  lt_ext d m = true <-> (m = Infinity \/ exists m', m = Finite m' /\ d < m').
Proof.
  destruct m as [| m']; simpl.
  - split; auto.
  - destruct (Rlt_dec d m'); split; intros H; try discriminate; eauto.
    destruct H as [H | (m'' & H & Hlt)]; [discriminate |].
    injection H as ->. contradiction.
Qed.

Lemma lt_ext_false (d : R) (m : ExtNumber) :
  lt_ext d m = false <-> exists m', m = Finite m' /\ m' <= d.
Proof.
  destruct m as [| m']; simpl.
  - split; [discriminate | intros (m' & H & _); discriminate].
  - destruct (Rlt_dec d m'); split; intros H; try discriminate.
    + destruct H as (m'' & H & Hle). injection H as ->. lra.
    + exists m'. split; [reflexivity | lra].
    + reflexivity.
Qed.

Lemma lt_ext_trans (d d' : R) (m : ExtNumber) :
  d <= d' -> lt_ext d' m = true -> lt_ext d m = true.
Proof.
  intros Hle H. apply lt_ext_true in H. apply lt_ext_true.
  destruct H as [H | (m' & -> & Hlt)]; [left; assumption | right].
  exists m'. split; [reflexivity | lra].
Qed.

(** The loop from any state: either no entry improved on the state, or
    the result is an entry below the initial bound, minimal in the table
    and strictly below all entries before it. *)
Lemma closest_fold_inv (table : list (Color * Triple)) :
  forall st : ExtNumber * Color,
    (fold_left (closestStep lab) table st = st /\
     forall e, In e table -> lt_ext (dist e) (fst st) = false)
    \/
    (exists (i : nat) (e : Color * Triple),
       table !! i = Some e /\
       fold_left (closestStep lab) table st = (Finite (dist e), fst e) /\
       lt_ext (dist e) (fst st) = true /\
       forall (j : nat) (e' : Color * Triple), table !! j = Some e' ->
         dist e <= dist e' /\ ((j < i)%nat -> dist e < dist e')).
Proof.
  induction table as [| e0 tl IH]; intros st.
  - left. split; [reflexivity | intros e []].
  - simpl fold_left.
    destruct st as [m c]. destruct e0 as [c0 cen0].
    assert (Hstep : closestStep lab (m, c) (c0, cen0) =
                    if lt_ext (dist (c0, cen0)) m
                    then (Finite (dist (c0, cen0)), c0) else (m, c))
      by reflexivity.
    rewrite Hstep. clear Hstep.
    destruct (lt_ext (dist (c0, cen0)) m) eqn:Hlt.
    + right.
      destruct (IH (Finite (dist (c0, cen0)), c0))
        as [[Hres Hall] | (i & e & Hi & Hres & Hbelow & Hmin)].
      * exists 0%nat, (c0, cen0).
        split; [reflexivity |]. split; [exact Hres |].
        split; [exact Hlt |].
        intros j e' H. split; [| lia].
        destruct j as [| j]; simpl in H.
        -- injection H as <-. lra.
        -- apply list_elem_of_lookup_2, list_elem_of_In, Hall in H.
           apply lt_ext_false in H. destruct H as (m' & H & Hle).
           injection H as <-. exact Hle.
      * exists (S i), e. simpl in Hbelow.
        destruct (Rlt_dec (dist e) (dist (c0, cen0))) as [Hd | Hd];
          [| discriminate].
        split; [exact Hi |]. split; [exact Hres |].
        split; [eapply lt_ext_trans; [| exact Hlt]; lra |].
        intros j e' H.
        destruct j as [| j]; simpl in H.
        -- injection H as <-. split; [lra | intros _; exact Hd].
        -- destruct (Hmin j e' H) as [Hle Hstrict].
           split; [exact Hle | intros Hj; apply Hstrict; lia].
    + apply lt_ext_false in Hlt. destruct Hlt as (m' & -> & Hm').
      destruct (IH (Finite m', c))
        as [[Hres Hall] | (i & e & Hi & Hres & Hbelow & Hmin)].
      * left. split; [assumption |].
        intros e [<- | He]; [| apply Hall; assumption].
        apply lt_ext_false. eauto.
      * right. exists (S i), e. simpl in Hbelow.
        destruct (Rlt_dec (dist e) m') as [Hd | Hd]; [| discriminate].
        split; [exact Hi |]. split; [exact Hres |].
        split.
        { simpl. destruct (Rlt_dec (dist e) m'); [reflexivity | contradiction]. }
        intros j e' H.
        destruct j as [| j]; simpl in H.
        -- injection H as <-. split; [lra | intros _; lra].
        -- destruct (Hmin j e' H) as [Hle Hstrict].
           split; [exact Hle | intros Hj; apply Hstrict; lia].
Qed.

(** On a non-empty table the loop returns the label of an entry of
    minimal distance, the first such entry in table order. *)
Lemma closestIn_argmin (table : list (Color * Triple)) :
  table <> [] ->
  exists (i : nat) (centroid : Triple),
    table !! i = Some (closestIn table lab, centroid) /\
    forall (j : nat) (color' : Color) (centroid' : Triple),
      table !! j = Some (color', centroid') ->
      distance lab centroid <= distance lab centroid' /\
      ((j < i)%nat -> distance lab centroid < distance lab centroid').
Proof.
  intros Hne. unfold closestIn.
  destruct (closest_fold_inv table (Infinity, white))
    as [[_ Hall] | (i & [color centroid] & Hi & Hres & _ & Hmin)].
  - destruct table as [| e tl]; [contradiction |].
    specialize (Hall e (or_introl eq_refl)). simpl in Hall. discriminate.
  - exists i, centroid. rewrite Hres. simpl. split; [exact Hi |].
    intros j color' centroid' Hj. apply (Hmin j (color', centroid') Hj).
Qed.

(** An entry strictly closer than every other entry is the one chosen. *)
Lemma closestIn_strict_min (table : list (Color * Triple)) (i : nat)
    (color : Color) (centroid : Triple) :
  table !! i = Some (color, centroid) ->
  (forall (j : nat) (color' : Color) (centroid' : Triple),
      table !! j = Some (color', centroid') -> j <> i ->
      distance lab centroid < distance lab centroid') ->
  closestIn table lab = color.
Proof.
  intros Hi Hstrict.
  destruct (closestIn_argmin table) as (k & cen & Hk & Hmin).
  { intros ->. discriminate. }
  destruct (Nat.eq_dec k i) as [-> | Hki].
  - rewrite Hi in Hk. congruence.
  - exfalso. pose proof (Hstrict k _ _ Hk Hki) as H1.
    pose proof (proj1 (Hmin i _ _ Hi)) as H2. lra.
Qed.
End Selection.

(** C2.  For every real 3-tuple the selection over the six centroids
    returns a label (it is total), the centroid of that label is at minimum
    Euclidean distance from the input, and every entry before it in the
    table order white, yellow, red, orange, blue, green is strictly
    farther: among equally near centroids the first encountered wins. *)
Theorem closestToLab_first_nearest_centroid (lab : Triple) :
  map fst COLOR_CENTROIDS = [white; yellow; red; orange; blue; green] /\
  exists (i : nat) (centroid : Triple),
    COLOR_CENTROIDS !! i = Some (closestToLab lab, centroid) /\
    forall (j : nat) (color' : Color) (centroid' : Triple),
      COLOR_CENTROIDS !! j = Some (color', centroid') ->
      distance lab centroid <= distance lab centroid' /\
      ((j < i)%nat -> distance lab centroid < distance lab centroid').
Proof.
  split; [reflexivity |].
  apply closestIn_argmin. discriminate.
Qed.

Lemma closestToLab_first_nearest_centroid_witness :
  exists (i : nat) (centroid : Triple),
    COLOR_CENTROIDS !! i = Some (closestToLab (0, 0, 0), centroid) /\
    (COLOR_CENTROIDS !! 0%nat = Some (white, (95, 0, 0)) ->
     distance (0, 0, 0) centroid <= distance (0, 0, 0) (95, 0, 0)).
Proof.
  destruct (closestToLab_first_nearest_centroid (0, 0, 0))
    as (_ & i & centroid & Hi & Hmin).
  exists i, centroid. split; [exact Hi |].
  intros H0. exact (proj1 (Hmin 0%nat white (95, 0, 0) H0)).
Defined.

(** ** C5 and C8: the table and its labels *)

(** Every other entry of [COLOR_CENTROIDS] is farther: one goal per entry,
    each reduced to a comparison of radicands. *)
Ltac other_entries :=
  let j := fresh "j" in
  let H := fresh "H" in
  let Hne := fresh "Hne" in
  intros j ? ? H Hne;
  do 6 (destruct j as [| j];
        [ simpl in H; injection H as <- <-;
          first [ exfalso; apply Hne; reflexivity
                | apply distance_lt; simpl; lra ]
        | ]);
  simpl in H; discriminate H.

(** C5.  Each of the six labels has a reference centroid in the table, and
    the selection applied to that centroid returns the same label. *)
Theorem closestToLab_fixes_centroids (c : Color) :
  exists centroid : Triple,
    In (c, centroid) COLOR_CENTROIDS /\ closestToLab centroid = c.
Proof.
  destruct c.
  - exists (95, 0, 0). split; [simpl; tauto |].
    apply closestIn_strict_min with (i := 0%nat) (centroid := (95, 0, 0));
      [reflexivity | other_entries].
  - exists (85, -10, 80). split; [simpl; tauto |].
    apply closestIn_strict_min with (i := 1%nat) (centroid := (85, -10, 80));
      [reflexivity | other_entries].
  - exists (45, 60, 45). split; [simpl; tauto |].
    apply closestIn_strict_min with (i := 2%nat) (centroid := (45, 60, 45));
      [reflexivity | other_entries].
  - exists (65, 45, 65). split; [simpl; tauto |].
    apply closestIn_strict_min with (i := 3%nat) (centroid := (65, 45, 65));
      [reflexivity | other_entries].
  - exists (35, 10, -50). split; [simpl; tauto |].
    apply closestIn_strict_min with (i := 4%nat) (centroid := (35, 10, -50));
      [reflexivity | other_entries].
  - exists (55, -50, 40). split; [simpl; tauto |].
    apply closestIn_strict_min with (i := 5%nat) (centroid := (55, -50, 40));
      [reflexivity | other_entries].
Qed.

Lemma closestIn_key (table : list (Color * Triple)) (lab : Triple) :
  table <> [] -> In (closestIn table lab) (map fst table).
Proof.
  intros Hne.
  destruct (closestIn_argmin lab table Hne) as (i & centroid & Hi & _).
  apply list_elem_of_lookup_2, list_elem_of_In in Hi.
  apply (in_map fst) in Hi. exact Hi.
Qed.

(** C8.  Every result of [getClosestColor] is one of the six labels, and
    [COLOR_CENTROIDS] has exactly six entries, one for each label, with no
    label twice. *)
Theorem classification_labels_and_table :
  (forall r g b : R,
      In (getClosestColor r g b) [white; yellow; red; orange; blue; green]) /\
  length COLOR_CENTROIDS = 6%nat /\
  (forall c : Color, In c (map fst COLOR_CENTROIDS)) /\
  NoDup (map fst COLOR_CENTROIDS).
Proof.
  split; [| split; [| split]].
  - intros r g b. unfold getClosestColor, closestToLab.
    change [white; yellow; red; orange; blue; green]
      with (map fst COLOR_CENTROIDS).
    apply closestIn_key. discriminate.
  - reflexivity.
  - intros []; simpl; tauto.
  - simpl.
    repeat (apply NoDup_cons_2;
            [ intros H%list_elem_of_In; simpl in H; intuition discriminate | ]).
    apply NoDup_nil_2.
Qed.

(** ** C10: the cube-state update *)

(** C10.  [handleFaceScan] changes only the entry at its face key: every
    other key of the resulting cube state holds what it held before. *)
Theorem handleFaceScan_frame (prev : CubeState) (faceKey : string)
    (faceData : Face) (k : string) :
  k <> faceKey ->
  handleFaceScan faceKey faceData prev !! k = prev !! k.
Proof.
  intros Hk. unfold handleFaceScan. apply lookup_insert_ne. congruence.
Qed.

Lemma handleFaceScan_frame_witness :
  handleFaceScan "F" (createFace red) INITIAL_CUBE_STATE !! "U"%string
  = INITIAL_CUBE_STATE !! "U"%string.
Proof. apply handleFaceScan_frame. discriminate. Defined.

(** ** C7: the sampler *)

Lemma some_triple_eq (a b c a' b' c' : R) :
  a = a' -> b = b' -> c = c' -> Some (a, b, c) = Some (a', b', c').
Proof. intros -> -> ->. reflexivity. Qed.

Lemma sumChannels_pixelBytes (ps : list Pixel) :
  forall r g b : R,
    sumChannels (pixelBytes ps) (r, g, b)
    = Some (r + IZR (channelSum red_of ps),
            g + IZR (channelSum green_of ps),
            b + IZR (channelSum blue_of ps)).
Proof.
  induction ps as [| [[[pr pg] pb] pa] rest IH]; intros r g b.
  - unfold channelSum. simpl. apply some_triple_eq; lra.
  - simpl pixelBytes. simpl sumChannels. rewrite IH.
    unfold channelSum. simpl. rewrite !plus_IZR.
    apply some_triple_eq; lra.
Qed.

Lemma length_pixelBytes (ps : list Pixel) :
  length (pixelBytes ps) = (4 * length ps)%nat.
Proof.
  induction ps as [| [[[pr pg] pb] pa] rest IH]; simpl; [reflexivity | lia].
Qed.

Lemma averageRegion_mean (ps : list Pixel) :
  ps <> [] ->
  averageRegion (pixelBytes ps)
  = Some (channelMean red_of ps, channelMean green_of ps,
          channelMean blue_of ps).
Proof.
  intros Hne. unfold averageRegion.
  rewrite sumChannels_pixelBytes, length_pixelBytes.
  destruct ps as [| [[[pr pg] pb] pa] rest]; [contradiction |].
  simpl pixelBytes. cbv iota beta.
  set (n := length ((pr, pg, pb, pa) :: rest)).
  assert (Hn : 0 < INR n) by (apply lt_0_INR; unfold n; simpl; lia).
  rewrite mult_INR. replace (INR 4) with 4 by (simpl; lra).
  unfold channelMean. fold n.
  assert (Hq : forall t : R, (0 + t) / (4 * INR n / 4) = t / INR n)
    by (intros t; field; lra).
  rewrite !Hq. reflexivity.
Qed.

Lemma channelSum_uniform (channel : Pixel -> Z) (v : Z) (ps : list Pixel) :
  Forall (fun p => channel p = v) ps ->
  channelSum channel ps = (Z.of_nat (length ps) * v)%Z.
Proof.
  unfold channelSum. induction 1 as [| p rest Hp _ IH]; [reflexivity |].
  simpl map. simpl fold_right. rewrite IH, Hp.
  change (length (p :: rest)) with (S (length rest)). lia.
Qed.

Lemma channelMean_uniform (channel : Pixel -> Z) (v : Z) (ps : list Pixel) :
  ps <> [] ->
  Forall (fun p => channel p = v) ps ->
  channelMean channel ps = IZR v.
Proof.
  intros Hne Hall. unfold channelMean.
  rewrite (channelSum_uniform channel v ps Hall), mult_IZR, <- INR_IZR_INZ.
  assert (Hn : 0 < INR (length ps)).
  { apply lt_0_INR. destruct ps; [contradiction | simpl; lia]. }
  field. lra.
Qed.

Lemma averageRegion_uniform (r g b : Z) (ps : list Pixel) :
  ps <> [] ->
  Forall (fun p => red_of p = r /\ green_of p = g /\ blue_of p = b) ps ->
  averageRegion (pixelBytes ps) = Some (IZR r, IZR g, IZR b).
Proof.
  intros Hne Hall. rewrite averageRegion_mean by assumption.
  rewrite (channelMean_uniform red_of r), (channelMean_uniform green_of g),
    (channelMean_uniform blue_of b); try assumption; try reflexivity;
    eapply Forall_impl; try exact Hall; simpl; tauto.
Qed.

Lemma captureFace_reports (canvas : Canvas) (capturedFaces : list string) :
  (length capturedFaces < 6)%nat ->
  fst (captureFace (Some canvas) capturedFaces)
  = Some (nth (length capturedFaces) faceKeys EmptyString, detectFace canvas).
Proof.
  intros Hlen. unfold captureFace.
  destruct (6 <=? length capturedFaces)%nat eqn:Hfull; [| reflexivity].
  apply Nat.leb_le in Hfull. lia.
Qed.

Lemma centers_closed_form (canvas : Canvas) (row col : nat) :
  centerX canvas col
  = IZR (width canvas) / 2
    + (INR col - 1) * (Rmin (IZR (width canvas)) (IZR (height canvas)) / 6) /\
  centerY canvas row
  = IZR (height canvas) / 2
    + (INR row - 1) * (Rmin (IZR (width canvas)) (IZR (height canvas)) / 6).
Proof.
  unfold centerX, centerY, startX, startY, step, size. split; nra.
Qed.

Lemma shorter_side_pos (canvas : Canvas) :
  (0 < width canvas)%Z -> (0 < height canvas)%Z ->
  0 < Rmin (IZR (width canvas)) (IZR (height canvas)).
Proof.
  intros Hw Hh. apply IZR_lt in Hw, Hh. apply Rmin_glb_lt; assumption.
Qed.

(** On a frame with pixels, different cells are sampled at different
    places. *)
Lemma centers_distinct (canvas : Canvas) (row col row' col' : nat) :
  (0 < width canvas)%Z -> (0 < height canvas)%Z ->
  (row, col) <> (row', col') ->
  (centerX canvas col - 5, centerY canvas row - 5)
  <> (centerX canvas col' - 5, centerY canvas row' - 5).
Proof.
  intros Hw Hh Hne Heq.
  pose proof (shorter_side_pos canvas Hw Hh) as Hm.
  destruct (centers_closed_form canvas row col) as [Hx Hy].
  destruct (centers_closed_form canvas row' col') as [Hx' Hy'].
  injection Heq as Hex Hey. rewrite Hx, Hx' in Hex. rewrite Hy, Hy' in Hey.
  set (m := Rmin (IZR (width canvas)) (IZR (height canvas))) in *.
  assert (Hcol : INR col = INR col') by nra.
  assert (Hrow : INR row = INR row') by nra.
  apply INR_eq in Hcol, Hrow. apply Hne. congruence.
Qed.

(** When the shorter side is at least 60 pixels, later columns and rows
    are sampled at least 10 pixels further. *)
Lemma centers_apart (canvas : Canvas) (i j : nat) :
  (60 <= width canvas)%Z -> (60 <= height canvas)%Z ->
  (i < j)%nat ->
  centerX canvas i - 5 + 10 <= centerX canvas j - 5 /\
  centerY canvas i - 5 + 10 <= centerY canvas j - 5.
Proof.
  intros Hw Hh Hij.
  apply IZR_le in Hw, Hh.
  destruct (centers_closed_form canvas i i) as [-> ->].
  destruct (centers_closed_form canvas j j) as [-> ->].
  assert (Hmin : 60 <= Rmin (IZR (width canvas)) (IZR (height canvas)))
    by (apply Rmin_glb; assumption).
  set (m := Rmin (IZR (width canvas)) (IZR (height canvas))) in *.
  assert (Hgap : INR i + 1 <= INR j).
  { rewrite <- S_INR. apply le_INR. lia. }
  assert (Hprod : 10 <= (INR j - INR i) * (m / 6)) by nra.
  lra.
Qed.

(** The colour stored at [row], [col] of the detected face. *)
Lemma detectFace_cell (canvas : Canvas) (row col : nat) :
  (row < 3)%nat -> (col < 3)%nat ->
  exists rowColors : list Color,
    detectFace canvas !! row = Some rowColors /\
    rowColors !! col
    = Some (classifySample (averageRegion
              (getImageData canvas (centerX canvas col - 5)
                 (centerY canvas row - 5) 10 10))).
Proof.
  intros Hrow Hcol.
  destruct row as [| [| [| row]]]; [| | | lia];
    (eexists; split; [reflexivity |]);
    destruct col as [| [| [| col]]]; try lia; reflexivity.
Qed.

(** C7.  The sampler returns the channel-wise arithmetic mean of the
    pixels of its window; on a 10x10 window whose pixels all carry one RGB
    value it returns exactly that value; and a face scan takes nine
    samples, one per cell of the 3x3 grid: the face [captureFace] reports
    has three rows of three cells, the cell at [row], [col] is classified
    from the one 10x10 region requested around its own centre, that centre
    is the middle of the frame shifted by [col - 1] and [row - 1] sixths of
    the shorter side, different cells have different regions on every frame
    with pixels (regions that do not overlap once the shorter side is at
    least 60), and a cell's colour is decided by the bytes of its own
    region alone. *)
Theorem sampler_mean_and_nine_samples :
  (forall ps : list Pixel, ps <> [] ->
     averageRegion (pixelBytes ps)
     = Some (channelMean red_of ps, channelMean green_of ps,
             channelMean blue_of ps)) /\
  (forall (r g b : Z) (ps : list Pixel),
     length ps = (10 * 10)%nat ->
     Forall (fun p => red_of p = r /\ green_of p = g /\ blue_of p = b) ps ->
     averageRegion (pixelBytes ps) = Some (IZR r, IZR g, IZR b)) /\
  (forall canvas : Canvas,
     length (detectFace canvas) = 3%nat /\
     Forall (fun rowColors => length rowColors = 3%nat) (detectFace canvas) /\
     length (concat (detectFace canvas)) = 9%nat /\
     forall row col : nat, (row < 3)%nat -> (col < 3)%nat ->
       exists rowColors : list Color,
         detectFace canvas !! row = Some rowColors /\
         rowColors !! col
         = Some (classifySample (averageRegion
                   (getImageData canvas (centerX canvas col - 5)
                      (centerY canvas row - 5) 10 10)))) /\
  (forall (canvas : Canvas) (capturedFaces : list string),
     (length capturedFaces < 6)%nat ->
     fst (captureFace (Some canvas) capturedFaces)
     = Some (nth (length capturedFaces) faceKeys EmptyString,
             detectFace canvas)) /\
  (forall (canvas : Canvas) (row col : nat),
     centerX canvas col
     = IZR (width canvas) / 2
       + (INR col - 1)
         * (Rmin (IZR (width canvas)) (IZR (height canvas)) / 6) /\
     centerY canvas row
     = IZR (height canvas) / 2
       + (INR row - 1)
         * (Rmin (IZR (width canvas)) (IZR (height canvas)) / 6)) /\
  (forall (canvas : Canvas) (row col row' col' : nat),
     (0 < width canvas)%Z -> (0 < height canvas)%Z ->
     (row, col) <> (row', col') ->
     (centerX canvas col - 5, centerY canvas row - 5)
     <> (centerX canvas col' - 5, centerY canvas row' - 5)) /\
  (forall (canvas : Canvas) (i j : nat),
     (60 <= width canvas)%Z -> (60 <= height canvas)%Z -> (i < j)%nat ->
     centerX canvas i - 5 + 10 <= centerX canvas j - 5 /\
     centerY canvas i - 5 + 10 <= centerY canvas j - 5) /\
  (forall (canvas canvas' : Canvas) (row col : nat),
     (row < 3)%nat -> (col < 3)%nat ->
     getImageData canvas (centerX canvas col - 5) (centerY canvas row - 5)
       10 10
     = getImageData canvas' (centerX canvas' col - 5)
         (centerY canvas' row - 5) 10 10 ->
     exists (c : Color) (rowColors rowColors' : list Color),
       detectFace canvas !! row = Some rowColors /\
       rowColors !! col = Some c /\
       detectFace canvas' !! row = Some rowColors' /\
       rowColors' !! col = Some c).
Proof.
  split; [exact averageRegion_mean |].
  split.
  { intros r g b ps Hlen Hall. apply averageRegion_uniform; [| exact Hall].
    intros ->. discriminate Hlen. }
  split.
  { intros canvas. split; [reflexivity |]. split.
    { repeat constructor. }
    split; [reflexivity |]. apply detectFace_cell. }
  split; [exact captureFace_reports |].
  split; [exact centers_closed_form |].
  split; [exact centers_distinct |].
  split; [exact centers_apart |].
  intros canvas canvas' row col Hrow Hcol Hdata.
  destruct (detectFace_cell canvas row col Hrow Hcol)
    as (rowColors & Hr & Hc).
  destruct (detectFace_cell canvas' row col Hrow Hcol)
    as (rowColors' & Hr' & Hc').
  rewrite <- Hdata in Hc'.
  eexists _, rowColors, rowColors'. eauto.
Qed.

Lemma sampler_mean_and_nine_samples_witness :
  averageRegion (pixelBytes (replicate 100 (249, 115, 22, 255)%Z))
  = Some (IZR 249, IZR 115, IZR 22)
  /\ averageRegion (pixelBytes [(10, 20, 30, 255); (20, 40, 50, 255)]%Z)
     = Some (channelMean red_of [(10, 20, 30, 255); (20, 40, 50, 255)]%Z,
             channelMean green_of [(10, 20, 30, 255); (20, 40, 50, 255)]%Z,
             channelMean blue_of [(10, 20, 30, 255); (20, 40, 50, 255)]%Z)
  /\ (exists rowColors : list Color,
       detectFace (mkCanvas 1280 720 (fun _ _ _ _ => [])) !! 1%nat
       = Some rowColors)
  /\ fst (captureFace (Some (mkCanvas 1280 720 (fun _ _ _ _ => [])))
            ["Front"; "Back"]%string)
     = Some ("U"%string, detectFace (mkCanvas 1280 720 (fun _ _ _ _ => [])))
  /\ (centerX (mkCanvas 1280 720 (fun _ _ _ _ => [])) 0 - 5,
      centerY (mkCanvas 1280 720 (fun _ _ _ _ => [])) 0 - 5)
     <> (centerX (mkCanvas 1280 720 (fun _ _ _ _ => [])) 1 - 5,
         centerY (mkCanvas 1280 720 (fun _ _ _ _ => [])) 0 - 5)
  /\ centerX (mkCanvas 1280 720 (fun _ _ _ _ => [])) 0 - 5 + 10
     <= centerX (mkCanvas 1280 720 (fun _ _ _ _ => [])) 1 - 5
  /\ exists (c : Color) (rowColors rowColors' : list Color),
       detectFace (mkCanvas 1280 720 (fun _ _ _ _ => [])) !! 2%nat
       = Some rowColors /\
       rowColors !! 0%nat = Some c /\
       detectFace (mkCanvas 1280 720 (fun _ _ _ _ => [])) !! 2%nat
       = Some rowColors' /\
       rowColors' !! 0%nat = Some c.
Proof.
  destruct sampler_mean_and_nine_samples
    as (Hmean & Huniform & Hface & Hcapture & _ & Hdistinct & Hapart & Hown).
  split; [| split; [| split; [| split; [| split; [| split]]]]].
  - apply Huniform; [reflexivity |].
    apply Forall_replicate. repeat split.
  - apply Hmean. discriminate.
  - destruct (Hface (mkCanvas 1280 720 (fun _ _ _ _ => [])))
      as (_ & _ & _ & Hcell).
    destruct (Hcell 1%nat 1%nat) as (rowColors & Hrow & _); [lia | lia |].
    exists rowColors. exact Hrow.
  - apply Hcapture; simpl; lia.
  - apply Hdistinct; [simpl; lia | simpl; lia | discriminate].
  - apply (Hapart (mkCanvas 1280 720 (fun _ _ _ _ => [])) 0%nat 1%nat);
      simpl; lia.
  - apply Hown; [lia | lia | reflexivity].
Defined.

(** ** Enclosures of real powers by rational arithmetic *)

Lemma Rpower_of_pow (x c : R) (n : nat) :
  0 < x -> Rpower (x ^ n) c = Rpower x (INR n * c).
Proof.
  intros Hx. rewrite <- Rpower_pow by assumption. apply Rpower_mult.
Qed.

Section RationalExponent.
Variables (e : R) (p q : nat).
Hypothesis Hq : (0 < q)%nat.
Hypothesis He : e * INR q = INR p.

Lemma INR_q_pos : 0 < INR q.
Proof. apply lt_0_INR. exact Hq. Qed.

Lemma Rpower_root_of_pow (l : R) : 0 < l -> Rpower (l ^ q) (/ INR q) = l.
Proof.
  intros Hl. rewrite Rpower_of_pow by assumption.
  rewrite Rinv_r by (pose proof INR_q_pos; lra).
  apply Rpower_1; assumption.
Qed.

Lemma Rpower_as_root (x : R) :
  0 < x -> Rpower x e = Rpower (x ^ p) (/ INR q).
Proof.
  intros Hx. rewrite Rpower_of_pow by assumption. f_equal.
  rewrite <- He. field. pose proof INR_q_pos; lra.
Qed.

Lemma Rpower_lower (x l : R) :
  0 < x -> 0 < l -> l ^ q <= x ^ p -> l <= Rpower x e.
Proof.
  intros Hx Hl Hle.
  rewrite <- (Rpower_root_of_pow l Hl), (Rpower_as_root x Hx).
  apply Rle_Rpower_l.
  - left. apply Rinv_0_lt_compat, INR_q_pos.
  - split; [apply pow_lt; assumption | assumption].
Qed.

Lemma Rpower_upper (x u : R) :
  0 < x -> 0 < u -> x ^ p <= u ^ q -> Rpower x e <= u.
Proof.
  intros Hx Hu Hle.
  rewrite <- (Rpower_root_of_pow u Hu), (Rpower_as_root x Hx).
  apply Rle_Rpower_l.
  - left. apply Rinv_0_lt_compat, INR_q_pos.
  - split; [apply pow_lt; assumption | assumption].
Qed.
End RationalExponent.

Lemma gamma_expand_linear (v : R) :
  v <= 0.04045 -> Spec.gamma_expand v = v / 12.92.
Proof.
  intros Hv. unfold Spec.gamma_expand.
  destruct (Rle_dec v 0.04045); [reflexivity | contradiction].
Qed.

Lemma gamma_expand_power (v : R) :
  0.04045 < v -> Spec.gamma_expand v = Rpower ((v + 0.055) / 1.055) 2.4.
Proof.
  intros Hv. unfold Spec.gamma_expand.
  destruct (Rle_dec v 0.04045); [lra | reflexivity].
Qed.

Lemma gamma_expand_bounds (v lo hi : R) :
  0.04045 < v -> 0 < lo -> 0 < hi ->
  lo ^ 5 <= ((v + 0.055) / 1.055) ^ 12 ->
  ((v + 0.055) / 1.055) ^ 12 <= hi ^ 5 ->
  lo <= Spec.gamma_expand v <= hi.
Proof.
  intros Hv Hlo Hhi. rewrite gamma_expand_power by assumption.
  assert (Hbase : 0 < (v + 0.055) / 1.055) by (apply Rdiv_lt_0_compat; lra).
  assert (He : 2.4 * INR 5 = INR 12) by (simpl; lra).
  assert (Hq : (0 < 5)%nat) by lia.
  generalize dependent ((v + 0.055) / 1.055). intros base Hbase Hl Hu.
  split.
  - exact (Rpower_lower 2.4 12 5 Hq He base lo Hbase Hlo Hl).
  - exact (Rpower_upper 2.4 12 5 Hq He base hi Hbase Hhi Hu).
Qed.

Lemma lab_f_cube_root (x : R) :
  0.008856 < x -> Spec.lab_f x = Rpower x (/ 3).
Proof.
  intros Hx. unfold Spec.lab_f, Spec.cube_root.
  destruct (Rgt_dec x 0.008856) as [_ | Hn]; [reflexivity | ].
  exfalso. apply Hn. exact Hx.
Qed.

Lemma lab_f_bounds (x xlo xhi lo hi : R) :
  0.008856 < x -> xlo <= x <= xhi -> 0 < lo -> 0 < hi ->
  lo ^ 3 <= xlo -> xhi <= hi ^ 3 ->
  lo <= Spec.lab_f x <= hi.
Proof.
  intros Hgt Hx Hlo Hhi Hl Hu. rewrite lab_f_cube_root by lra.
  split.
  - apply (Rpower_lower (/ 3) 1 3); try assumption; [lia | simpl; lra | lra |].
    rewrite pow_1. lra.
  - apply (Rpower_upper (/ 3) 1 3); try assumption; [lia | simpl; lra | lra |].
    rewrite pow_1. lra.
Qed.

(** ** C3: the lightness range *)

Lemma gamma_expand_unit (v : R) :
  0 <= v <= 1 -> 0 <= Spec.gamma_expand v <= 1.
Proof.
  intros Hv. destruct (Rle_dec v 0.04045) as [Hle | Hgt].
  - rewrite gamma_expand_linear by assumption. lra.
  - rewrite gamma_expand_power by lra. split.
    + left. apply exp_pos.
    + rewrite <- (Rpower_one 2.4). apply Rle_Rpower_l; [lra |].
      split; [apply Rdiv_lt_0_compat; lra | lra].
Qed.

Lemma lab_f_unit (x : R) : 0 <= x <= 1 -> 16 / 116 <= Spec.lab_f x <= 1.
Proof.
  intros Hx. destruct (Rgt_dec x 0.008856) as [Hgt | Hle].
  - unfold Rgt in Hgt.
    pose proof (lab_f_bounds x 0.008856 1 0.2 1) as H. lra.
  - unfold Spec.lab_f.
    destruct (Rgt_dec x 0.008856) as [Hgt | _]; [contradiction |].
    unfold Rgt in Hle. lra.
Qed.

Lemma lightness_range (r g b : R) :
  0 <= r <= 255 -> 0 <= g <= 255 -> 0 <= b <= 255 ->
  0 <= fst (fst (rgbToLab r g b)) <= 100.
Proof.
  intros Hr Hg Hb. rewrite rgbToLab_spec_eq.
  unfold Spec.rgb_to_lab, Spec.to_xyz, Spec.matrix, Spec.dot,
    Spec.white_point, Spec.normalize. simpl fst.
  pose proof (gamma_expand_unit (r / 255) ltac:(lra)) as Hrl.
  pose proof (gamma_expand_unit (g / 255) ltac:(lra)) as Hgl.
  pose proof (gamma_expand_unit (b / 255) ltac:(lra)) as Hbl.
  set (rl := Spec.gamma_expand (r / 255)) in *.
  set (gl := Spec.gamma_expand (g / 255)) in *.
  set (bl := Spec.gamma_expand (b / 255)) in *.
  pose proof (lab_f_unit ((21.26 * rl + 71.52 * gl + 7.22 * bl) / 100.000)
                ltac:(lra)) as Hfy.
  lra.
Qed.

(** C3.  For every 8-bit RGB triple the first coordinate of
    [rgbToLab r g b], the lightness, lies in the closed interval
    [0, 100]. *)
Theorem rgbToLab_lightness_in_0_100 (r g b : Z) :
  (0 <= r <= 255)%Z -> (0 <= g <= 255)%Z -> (0 <= b <= 255)%Z ->
  0 <= fst (fst (rgbToLab (IZR r) (IZR g) (IZR b))) <= 100.
Proof.
  intros [Hr0 Hr1] [Hg0 Hg1] [Hb0 Hb1].
  apply IZR_le in Hr0, Hr1, Hg0, Hg1, Hb0, Hb1.
  apply lightness_range; lra.
Qed.

Lemma rgbToLab_lightness_in_0_100_witness :
  0 <= fst (fst (rgbToLab (IZR 255) (IZR 255) (IZR 255))) <= 100.
Proof. apply (rgbToLab_lightness_in_0_100 255 255 255); lia. Defined.

(** ** C4: the canonical colours *)

(** Discharge the numeric side conditions of an enclosure lemma. *)
Ltac gamma_enclosed H :=
  specialize (H ltac:(lra) ltac:(lra) ltac:(lra) ltac:(lra) ltac:(lra)).

Ltac lab_f_enclosed H :=
  specialize (H ltac:(lra) ltac:(lra) ltac:(lra) ltac:(lra) ltac:(lra)
                ltac:(lra)).

Ltac open_converter :=
  rewrite rgbToLab_spec_eq;
  unfold Spec.rgb_to_lab, Spec.to_xyz, Spec.matrix, Spec.dot,
    Spec.white_point, Spec.normalize.

Ltac close_converter := eexists _, _, _; split; [reflexivity | lra].

Lemma lab_of_red :
  exists L a b : R, rgbToLab 220 38 38 = (L, a, b) /\
    47.9 <= L <= 48 /\ 66.8 <= a <= 67.1 /\ 46.8 <= b <= 47.
Proof.
  open_converter.
  pose proof (gamma_expand_bounds (220 / 255) 0.7156 0.7157) as Hr.
  pose proof (gamma_expand_bounds (38 / 255) 0.0193 0.0194) as Hg.
  gamma_enclosed Hr. gamma_enclosed Hg.
  set (rl := Spec.gamma_expand (220 / 255)) in *.
  set (gl := Spec.gamma_expand (38 / 255)) in *.
  pose proof (lab_f_bounds ((41.24 * rl + 35.76 * gl + 18.05 * gl) / 95.047)
                0.321418 0.321519 0.6849 0.6851) as Hx.
  pose proof (lab_f_bounds ((21.26 * rl + 71.52 * gl + 7.22 * gl) / 100.000)
                0.167333 0.167434 0.551 0.5512) as Hy.
  pose proof (lab_f_bounds ((1.93 * rl + 11.92 * gl + 95.05 * gl) / 108.883)
                0.031645 0.031746 0.3163 0.3167) as Hz.
  lab_f_enclosed Hx. lab_f_enclosed Hy. lab_f_enclosed Hz.
  close_converter.
Qed.

Ltac nearest_entry Hlab i cen :=
  let L := fresh "L" in
  let a := fresh "a" in
  let b := fresh "b" in
  let HL := fresh "HL" in
  let Ha := fresh "Ha" in
  let Hb := fresh "Hb" in
  unfold getClosestColor; cbv zeta;
  destruct Hlab as (L & a & b & -> & HL & Ha & Hb);
  apply (closestIn_strict_min _ COLOR_CENTROIDS i _ cen);
  [reflexivity | other_entries].

Lemma getClosestColor_red : getClosestColor 220 38 38 = red.
Proof. nearest_entry lab_of_red 2%nat (45, 60, 45). Qed.

Lemma lab_of_white :
  exists L a b : R, rgbToLab 255 255 255 = (L, a, b) /\
    99.9 <= L <= 100.1 /\ -0.1 <= a <= 0.1 /\ -0.1 <= b <= 0.1.
Proof.
  open_converter.
  pose proof (gamma_expand_bounds (255 / 255) 1 1) as Hr.
  gamma_enclosed Hr.
  set (rl := Spec.gamma_expand (255 / 255)) in *.
  pose proof (lab_f_bounds ((41.24 * rl + 35.76 * rl + 18.05 * rl) / 95.047)
                1.000031 1.000032 1 1.0001) as Hx.
  pose proof (lab_f_bounds ((21.26 * rl + 71.52 * rl + 7.22 * rl) / 100.000)
                1 1 1 1) as Hy.
  pose proof (lab_f_bounds ((1.93 * rl + 11.92 * rl + 95.05 * rl) / 108.883)
                1.000156 1.000157 1 1.0001) as Hz.
  lab_f_enclosed Hx. lab_f_enclosed Hy. lab_f_enclosed Hz.
  close_converter.
Qed.

Lemma lab_of_yellow :
  exists L a b : R, rgbToLab 255 215 0 = (L, a, b) /\
    86.9 <= L <= 87 /\ -2 <= a <= -1.9 /\ 87.1 <= b <= 87.2.
Proof.
  open_converter.
  pose proof (gamma_expand_bounds (255 / 255) 1 1) as Hr.
  pose proof (gamma_expand_bounds (215 / 255) 0.6795 0.6796) as Hg.
  pose proof (gamma_expand_linear (0 / 255) ltac:(lra)) as Hb.
  gamma_enclosed Hr. gamma_enclosed Hg.
  set (rl := Spec.gamma_expand (255 / 255)) in *.
  set (gl := Spec.gamma_expand (215 / 255)) in *.
  set (bl := Spec.gamma_expand (0 / 255)) in *.
  pose proof (lab_f_bounds ((41.24 * rl + 35.76 * gl + 18.05 * bl) / 95.047)
                0.689542 0.68958 0.8834 0.8835) as Hx.
  pose proof (lab_f_bounds ((21.26 * rl + 71.52 * gl + 7.22 * bl) / 100.000)
                0.698578 0.69865 0.8873 0.8874) as Hy.
  pose proof (lab_f_bounds ((1.93 * rl + 11.92 * gl + 95.05 * bl) / 108.883)
                0.092113 0.092125 0.4516 0.4517) as Hz.
  lab_f_enclosed Hx. lab_f_enclosed Hy. lab_f_enclosed Hz.
  close_converter.
Qed.

Lemma lab_of_orange :
  exists L a b : R, rgbToLab 249 115 22 = (L, a, b) /\
    63.7 <= L <= 63.8 /\ 47 <= a <= 47.2 /\ 67.5 <= b <= 67.7.
Proof.
  open_converter.
  pose proof (gamma_expand_bounds (249 / 255) 0.9473 0.9474) as Hr.
  pose proof (gamma_expand_bounds (115 / 255) 0.1714 0.1715) as Hg.
  pose proof (gamma_expand_bounds (22 / 255) 0.008 0.0081) as Hb.
  gamma_enclosed Hr. gamma_enclosed Hg. gamma_enclosed Hb.
  set (rl := Spec.gamma_expand (249 / 255)) in *.
  set (gl := Spec.gamma_expand (115 / 255)) in *.
  set (bl := Spec.gamma_expand (22 / 255)) in *.
  pose proof (lab_f_bounds ((41.24 * rl + 35.76 * gl + 18.05 * bl) / 95.047)
                0.47703 0.477131 0.7813 0.7815) as Hx.
  pose proof (lab_f_bounds ((21.26 * rl + 71.52 * gl + 7.22 * bl) / 100.000)
                0.324558 0.324659 0.6872 0.6873) as Hy.
  pose proof (lab_f_bounds ((1.93 * rl + 11.92 * gl + 95.05 * bl) / 108.883)
                0.042539 0.04264 0.349 0.3494) as Hz.
  lab_f_enclosed Hx. lab_f_enclosed Hy. lab_f_enclosed Hz.
  close_converter.
Qed.

Lemma lab_of_blue :
  exists L a b : R, rgbToLab 37 99 235 = (L, a, b) /\
    46 <= L <= 46.1 /\ 30.9 <= a <= 31.1 /\ -73.9 <= b <= -73.8.
Proof.
  open_converter.
  pose proof (gamma_expand_bounds (37 / 255) 0.0185 0.0186) as Hr.
  pose proof (gamma_expand_bounds (99 / 255) 0.1247 0.1248) as Hg.
  pose proof (gamma_expand_bounds (235 / 255) 0.8307 0.8308) as Hb.
  gamma_enclosed Hr. gamma_enclosed Hg. gamma_enclosed Hb.
  set (rl := Spec.gamma_expand (37 / 255)) in *.
  set (gl := Spec.gamma_expand (99 / 255)) in *.
  set (bl := Spec.gamma_expand (235 / 255)) in *.
  pose proof (lab_f_bounds ((41.24 * rl + 35.76 * gl + 18.05 * bl) / 95.047)
                0.212698 0.212799 0.5969 0.5971) as Hx.
  pose proof (lab_f_bounds ((21.26 * rl + 71.52 * gl + 7.22 * bl) / 100.000)
                0.153095 0.153196 0.5349 0.5351) as Hy.
  pose proof (lab_f_bounds ((1.93 * rl + 11.92 * gl + 95.05 * bl) / 108.883)
                0.739143 0.739244 0.9041 0.9042) as Hz.
  lab_f_enclosed Hx. lab_f_enclosed Hy. lab_f_enclosed Hz.
  close_converter.
Qed.

Lemma lab_of_green :
  exists L a b : R, rgbToLab 22 163 74 = (L, a, b) /\
    58.8 <= L <= 58.9 /\ -54.6 <= a <= -54.3 /\ 36.1 <= b <= 36.3.
Proof.
  open_converter.
  pose proof (gamma_expand_bounds (22 / 255) 0.008 0.0081) as Hr.
  pose proof (gamma_expand_bounds (163 / 255) 0.3662 0.3663) as Hg.
  pose proof (gamma_expand_bounds (74 / 255) 0.0684 0.0685) as Hb.
  gamma_enclosed Hr. gamma_enclosed Hg. gamma_enclosed Hb.
  set (rl := Spec.gamma_expand (22 / 255)) in *.
  set (gl := Spec.gamma_expand (163 / 255)) in *.
  set (bl := Spec.gamma_expand (74 / 255)) in *.
  pose proof (lab_f_bounds ((41.24 * rl + 35.76 * gl + 18.05 * bl) / 95.047)
                0.154237 0.154338 0.5362 0.5365) as Hx.
  pose proof (lab_f_bounds ((21.26 * rl + 71.52 * gl + 7.22 * bl) / 100.000)
                0.268545 0.268646 0.6451 0.6453) as Hy.
  pose proof (lab_f_bounds ((1.93 * rl + 11.92 * gl + 95.05 * bl) / 108.883)
                0.099941 0.100042 0.464 0.4643) as Hz.
  lab_f_enclosed Hx. lab_f_enclosed Hy. lab_f_enclosed Hz.
  close_converter.
Qed.

Lemma getClosestColor_white : getClosestColor 255 255 255 = white.
Proof. nearest_entry lab_of_white 0%nat (95, 0, 0). Qed.

Lemma getClosestColor_yellow : getClosestColor 255 215 0 = yellow.
Proof. nearest_entry lab_of_yellow 1%nat (85, -10, 80). Qed.

Lemma getClosestColor_orange : getClosestColor 249 115 22 = orange.
Proof. nearest_entry lab_of_orange 3%nat (65, 45, 65). Qed.

Lemma getClosestColor_blue : getClosestColor 37 99 235 = blue.
Proof. nearest_entry lab_of_blue 4%nat (35, 10, -50). Qed.

Lemma getClosestColor_green : getClosestColor 22 163 74 = green.
Proof. nearest_entry lab_of_green 5%nat (55, -50, 40). Qed.

(** C4.  [getClosestColor] maps (255,255,255) to white and (255,215,0) to
    yellow, and for each of the six labels the RGB value written in
    [COLOR_MAP] is classified as that label. *)
Theorem canonical_colors_classified :
  getClosestColor 255 255 255 = white /\
  getClosestColor 255 215 0 = yellow /\
  forall c : Color,
    exists r g b : Z,
      hexToRgb (COLOR_MAP c) = Some (r, g, b) /\
      getClosestColor (IZR r) (IZR g) (IZR b) = c.
Proof.
  split; [exact getClosestColor_white |].
  split; [exact getClosestColor_yellow |].
  intros c. destruct c; eexists _, _, _; (split; [reflexivity |]).
  - exact getClosestColor_white.
  - exact getClosestColor_yellow.
  - exact getClosestColor_red.
  - exact getClosestColor_orange.
  - exact getClosestColor_blue.
  - exact getClosestColor_green.
Qed.

(* ================================================================== *)
(** * Part III: further properties of the scanner, the application state,
      the cube view and the dashboard *)
(* ================================================================== *)

(** ** The capture button over a session *)

(** [captureFace] does nothing without a frame or once six faces are
    captured: it makes no report and leaves [capturedFaces] as it was. *)
Lemma captureFace_guard (frame : option Canvas) (capturedFaces : list string) :
  frame = None \/ (6 <= length capturedFaces)%nat ->
  captureFace frame capturedFaces = (None, capturedFaces).
Proof.
  intros [-> | Hfull]; [reflexivity |].
  unfold captureFace. destruct frame as [canvas |]; [| reflexivity].
  destruct (6 <=? length capturedFaces)%nat eqn:Hleb; [reflexivity |].
  apply Nat.leb_gt in Hleb. lia.
Qed.

(** From a prefix of [faces], a press with a frame reports the next face
    key and extends the prefix by one. *)
Lemma captureFace_next (canvas : Canvas) (k : nat) :
  (k < 6)%nat ->
  captureFace (Some canvas) (take k faces)
  = (Some (nth k faceKeys EmptyString, detectFace canvas), take (S k) faces).
Proof.
  intros Hk.
  do 6 (destruct k as [| k]; [reflexivity |]). lia.
Qed.

Lemma captureSession_cons (frame : option Canvas)
    (rest : list (option Canvas)) (capturedFaces : list string) :
  captureSession (frame :: rest) capturedFaces
  = (match fst (captureFace frame capturedFaces) with
     | Some call =>
         call :: fst (captureSession rest (snd (captureFace frame capturedFaces)))
     | None => fst (captureSession rest (snd (captureFace frame capturedFaces)))
     end,
     snd (captureSession rest (snd (captureFace frame capturedFaces)))).
Proof.
  simpl. destruct (captureFace frame capturedFaces) as [report cf']. simpl.
  destruct (captureSession rest cf') as [reports final]. reflexivity.
Qed.

Lemma captureSession_from_prefix (frames : list (option Canvas)) :
  forall k : nat, (k <= 6)%nat ->
    exists m : nat,
      (k <= m <= 6)%nat /\
      snd (captureSession frames (take k faces)) = take m faces /\
      map fst (fst (captureSession frames (take k faces)))
      = take (m - k) (drop k faceKeys).
Proof.
  induction frames as [| frame rest IH]; intros k Hk.
  - exists k. simpl. replace (k - k)%nat with 0%nat by lia.
    split; [lia | split; reflexivity].
  - rewrite captureSession_cons.
    destruct frame as [canvas |].
    + destruct (Nat.eq_dec k 6%nat) as [-> | Hne].
      * rewrite captureFace_guard by (right; simpl; lia). cbn [fst snd].
        destruct (IH 6%nat Hk) as (m & Hm & Hfinal & Hkeys).
        exists m. auto.
      * rewrite captureFace_next by lia. cbn [fst snd].
        destruct (IH (S k) ltac:(lia)) as (m & Hm & Hfinal & Hkeys).
        exists m. split; [lia |]. split; [exact Hfinal |].
        cbn [map fst]. rewrite Hkeys. replace (m - k)%nat with (S (m - S k)) by lia.
        clear -Hk Hne.
        do 6 (destruct k as [| k]; [reflexivity |]). lia.
    + rewrite captureFace_guard by (left; reflexivity). cbn [fst snd].
      destruct (IH k Hk) as (m & Hm & Hfinal & Hkeys).
      exists m. auto.
Qed.

(** X1.  Whatever frames the presses get, one scanner reports at most six
    faces, under the keys F, B, U, D, L, R in this order without repeats,
    and [capturedFaces] ends as the matching prefix of the face names. *)
Theorem captureSession_at_most_six (frames : list (option Canvas)) :
  (length (fst (captureSession frames [])) <= 6)%nat /\
  map fst (fst (captureSession frames []))
  = take (length (fst (captureSession frames []))) faceKeys /\
  snd (captureSession frames [])
  = take (length (fst (captureSession frames []))) faces.
Proof.
  destruct (captureSession_from_prefix frames 0%nat ltac:(lia))
    as (m & Hm & Hfinal & Hkeys).
  change (take 0%nat faces) with (@nil string) in *.
  rewrite Nat.sub_0_r in Hkeys. change (drop 0%nat faceKeys) with faceKeys in Hkeys.
  assert (Hlen : length (fst (captureSession frames [])) = m).
  { rewrite <- (length_map fst), Hkeys, length_take. simpl. lia. }
  rewrite Hlen. split; [lia |]. split; assumption.
Qed.

Lemma captureSession_canvases (canvases : list Canvas) :
  forall k : nat, (k + length canvases <= 6)%nat ->
    captureSession (map Some canvases) (take k faces)
    = (zip (take (length canvases) (drop k faceKeys))
           (map detectFace canvases),
       take (k + length canvases) faces).
Proof.
  induction canvases as [| canvas rest IH]; intros k Hk.
  - simpl. rewrite Nat.add_0_r. reflexivity.
  - simpl in Hk. simpl map. rewrite captureSession_cons.
    rewrite captureFace_next by lia. cbn [fst snd].
    rewrite (IH (S k)) by lia. cbn [fst snd].
    replace (k + length (canvas :: rest))%nat with (S k + length rest)%nat
      by (simpl; lia).
    f_equal. simpl length.
    clear IH. do 6 (destruct k as [| k]; [reflexivity |]). lia.
Qed.

(** X2.  With a frame at every press, up to six presses report the faces
    detected in those frames, press by press, under the face keys in
    order. *)
Theorem captureSession_reports_frames (canvases : list Canvas) :
  (length canvases <= 6)%nat ->
  captureSession (map Some canvases) []
  = (zip (take (length canvases) faceKeys) (map detectFace canvases),
     take (length canvases) faces).
Proof.
  intros Hlen. exact (captureSession_canvases canvases 0%nat ltac:(simpl; lia)).
Qed.

Lemma captureSession_reports_frames_witness :
  captureSession
    (map Some [mkCanvas 640 480 (fun _ _ _ _ => []);
               mkCanvas 1280 720 (fun _ _ _ _ => [])]) []
  = (zip (take 2%nat faceKeys)
         (map detectFace [mkCanvas 640 480 (fun _ _ _ _ => []);
                          mkCanvas 1280 720 (fun _ _ _ _ => [])]),
     take 2%nat faces).
Proof.
  apply (captureSession_reports_frames
           [mkCanvas 640 480 (fun _ _ _ _ => []);
            mkCanvas 1280 720 (fun _ _ _ _ => [])]).
  simpl. lia.
Defined.

(** ** The sampler on whole buffers *)

Lemma channelSum_map (channel : Pixel -> Z) (ps : list Pixel) :
  channelSum channel ps = fold_right Z.add 0%Z (map channel ps).
Proof. reflexivity. Qed.

Lemma channels_of_rgb (ps : list Pixel) :
  map red_of ps = map (fun t : Z * Z * Z => fst (fst t)) (map rgb_of ps) /\
  map green_of ps = map (fun t : Z * Z * Z => snd (fst t)) (map rgb_of ps) /\
  map blue_of ps = map (fun t : Z * Z * Z => snd t) (map rgb_of ps).
Proof. rewrite !map_map. repeat split. Qed.

(** X3.  The alpha byte plays no part: two buffers whose pixels agree on
    red, green and blue have the same average, whatever their alpha
    bytes. *)
Theorem averageRegion_ignores_alpha (ps ps' : list Pixel) :
  map rgb_of ps = map rgb_of ps' ->
  averageRegion (pixelBytes ps) = averageRegion (pixelBytes ps').
Proof.
  intros Hrgb.
  assert (Hlen : length ps = length ps').
  { rewrite <- (length_map rgb_of ps), Hrgb. apply length_map. }
  destruct ps as [| p ps0]; destruct ps' as [| p' ps0']; try discriminate Hlen;
    [reflexivity |].
  rewrite !averageRegion_mean by discriminate.
  destruct (channels_of_rgb (p :: ps0)) as (Hr & Hg & Hb).
  destruct (channels_of_rgb (p' :: ps0')) as (Hr' & Hg' & Hb').
  unfold channelMean. rewrite !channelSum_map.
  rewrite Hr, Hg, Hb, Hr', Hg', Hb', Hrgb, Hlen. reflexivity.
Qed.

Lemma averageRegion_ignores_alpha_witness :
  averageRegion (pixelBytes [(10, 20, 30, 255); (40, 50, 60, 255)]%Z)
  = averageRegion (pixelBytes [(10, 20, 30, 0); (40, 50, 60, 17)]%Z).
Proof. apply averageRegion_ignores_alpha. reflexivity. Defined.

Lemma channelSum_bounds (channel : Pixel -> Z) (ps : list Pixel) :
  Forall (fun p => (0 <= channel p <= 255)%Z) ps ->
  (0 <= channelSum channel ps <= 255 * Z.of_nat (length ps))%Z.
Proof.
  unfold channelSum. induction 1 as [| p rest Hp _ IH]; simpl; [lia |].
  simpl in IH. lia.
Qed.

Lemma channelMean_bounds (channel : Pixel -> Z) (ps : list Pixel) :
  ps <> [] ->
  Forall (fun p => (0 <= channel p <= 255)%Z) ps ->
  0 <= channelMean channel ps <= 255.
Proof.
  intros Hne Hall. unfold channelMean.
  destruct (channelSum_bounds channel ps Hall) as [Hlo Hhi].
  apply IZR_le in Hlo, Hhi. rewrite mult_IZR, <- INR_IZR_INZ in Hhi.
  assert (Hn : 0 < INR (length ps)).
  { apply lt_0_INR. destruct ps; [contradiction | simpl; lia]. }
  split.
  - apply Rmult_le_reg_r with (INR (length ps)); [exact Hn |].
    unfold Rdiv. rewrite Rmult_assoc, Rinv_l by lra. lra.
  - apply Rmult_le_reg_r with (INR (length ps)); [exact Hn |].
    unfold Rdiv. rewrite Rmult_assoc, Rinv_l by lra. lra.
Qed.

(** X4.  On a non-empty buffer of pixels whose bytes are in 0..255 the
    sampler yields three channels in [0, 255], and the converter applied
    to them yields a lightness in [0, 100]. *)
Theorem averaged_sample_in_range (ps : list Pixel) :
  ps <> [] ->
  Forall (fun p => (0 <= red_of p <= 255)%Z /\ (0 <= green_of p <= 255)%Z /\
                   (0 <= blue_of p <= 255)%Z) ps ->
  exists r g b : R,
    averageRegion (pixelBytes ps) = Some (r, g, b) /\
    0 <= r <= 255 /\ 0 <= g <= 255 /\ 0 <= b <= 255 /\
    0 <= fst (fst (rgbToLab r g b)) <= 100.
Proof.
  intros Hne Hall.
  assert (Hr : 0 <= channelMean red_of ps <= 255).
  { apply channelMean_bounds; [exact Hne |].
    eapply Forall_impl; [exact Hall |]. simpl. tauto. }
  assert (Hg : 0 <= channelMean green_of ps <= 255).
  { apply channelMean_bounds; [exact Hne |].
    eapply Forall_impl; [exact Hall |]. simpl. tauto. }
  assert (Hb : 0 <= channelMean blue_of ps <= 255).
  { apply channelMean_bounds; [exact Hne |].
    eapply Forall_impl; [exact Hall |]. simpl. tauto. }
  exists (channelMean red_of ps), (channelMean green_of ps),
    (channelMean blue_of ps).
  split; [apply averageRegion_mean; exact Hne |].
  repeat (split; [lra |]). apply lightness_range; assumption.
Qed.

Lemma averaged_sample_in_range_witness :
  exists r g b : R,
    averageRegion (pixelBytes [(255, 0, 10, 255); (0, 255, 11, 255)]%Z)
    = Some (r, g, b) /\
    0 <= r <= 255 /\ 0 <= g <= 255 /\ 0 <= b <= 255 /\
    0 <= fst (fst (rgbToLab r g b)) <= 100.
Proof.
  apply averaged_sample_in_range; [discriminate |].
  repeat constructor; simpl; lia.
Defined.

Lemma sumChannels_none (n : nat) :
  forall (imgData : list Z) (acc : Triple),
    (length imgData <= n)%nat ->
    (sumChannels imgData acc = None <->
     (length imgData mod 4 = 1 \/ length imgData mod 4 = 2)%nat).
Proof.
  induction n as [| n IH]; intros imgData acc Hlen.
  - destruct imgData; [| simpl in Hlen; lia].
    simpl. split; [discriminate | intros [H | H]; discriminate H].
  - destruct imgData as [| pr [| pg [| pb [| pa rest]]]].
    + simpl. split; [discriminate | intros [H | H]; discriminate H].
    + simpl. split; [auto | reflexivity].
    + simpl. split; [auto | reflexivity].
    + destruct acc as [[r g] b]. simpl.
      split; [discriminate | intros [H | H]; discriminate H].
    + destruct acc as [[r g] b]. simpl sumChannels.
      rewrite IH by (simpl in Hlen; lia).
      change (length (pr :: pg :: pb :: pa :: rest))
        with (4 + length rest)%nat.
      replace ((4 + length rest) mod 4)%nat with (length rest mod 4)%nat;
        [reflexivity |].
      rewrite <- (Nat.Div0.mod_add (length rest) 1 4). f_equal. lia.
Qed.

(** X5.  The sampler fails to produce numbers (its channels are [NaN])
    exactly on an empty buffer and on a buffer whose length leaves
    remainder 1 or 2 modulo 4; on every other buffer it returns a
    triple. *)
Theorem averageRegion_nan_iff (imgData : list Z) :
  averageRegion imgData = None <->
  imgData = [] \/
  (length imgData mod 4 = 1)%nat \/ (length imgData mod 4 = 2)%nat.
Proof.
  unfold averageRegion. destruct imgData as [| z rest].
  - split; [auto | reflexivity].
  - pose proof (sumChannels_none (length (z :: rest)) (z :: rest) (0, 0, 0)
                  ltac:(lia)) as Hsum.
    destruct (sumChannels (z :: rest) (0, 0, 0)) as [[[r g] b] |].
    + split; [discriminate |].
      intros [H | H]; [discriminate H |].
      apply Hsum in H. discriminate H.
    + split; [| reflexivity].
      intros _. right. apply Hsum. reflexivity.
Qed.

Lemma averageRegion_nan_iff_witness :
  averageRegion [12; 34; 56; 255; 78]%Z = None.
Proof. apply averageRegion_nan_iff. right. left. reflexivity. Defined.

(** ** A uniform frame *)

Lemma canonical_rgb_classified (c : Color) (r g b : Z) :
  hexToRgb (COLOR_MAP c) = Some (r, g, b) ->
  getClosestColor (IZR r) (IZR g) (IZR b) = c.
Proof.
  intros Hhex.
  destruct c; vm_compute in Hhex; injection Hhex as <- <- <-.
  - exact getClosestColor_white.
  - exact getClosestColor_yellow.
  - exact getClosestColor_red.
  - exact getClosestColor_orange.
  - exact getClosestColor_blue.
  - exact getClosestColor_green.
Qed.

(** X6.  If every region read from the frame holds pixels of the RGB
    value that [COLOR_MAP] gives for one label, the detected face is the
    3x3 face of that label in every cell. *)
Theorem uniform_frame_detects_face (canvas : Canvas) (c : Color)
    (r g b : Z) :
  hexToRgb (COLOR_MAP c) = Some (r, g, b) ->
  (forall sx sy : R,
      exists ps : list Pixel,
        ps <> [] /\ Forall (fun p => rgb_of p = (r, g, b)) ps /\
        getImageData canvas sx sy 10 10 = pixelBytes ps) ->
  detectFace canvas = createFace c.
Proof.
  intros Hhex Hframe.
  assert (Hcell : forall row col, detectCell canvas row col = c).
  { intros row col. unfold detectCell, regionData.
    destruct (Hframe (centerX canvas col - 5) (centerY canvas row - 5))
      as (ps & Hne & Hall & ->).
    rewrite (averageRegion_uniform r g b ps Hne).
    - simpl. apply canonical_rgb_classified. exact Hhex.
    - eapply Forall_impl; [exact Hall |].
      intros p Hp. unfold rgb_of in Hp. injection Hp as -> -> ->. auto. }
  unfold detectFace, forPush, createFace. simpl. rewrite !Hcell. reflexivity.
Qed.

Lemma uniform_frame_detects_face_witness :
  detectFace
    (mkCanvas 640 480
       (fun _ _ _ _ => pixelBytes (replicate 100 (220, 38, 38, 255)%Z)))
  = createFace red.
Proof.
  apply (uniform_frame_detects_face _ red 220 38 38); [reflexivity |].
  intros sx sy. exists (replicate 100 (220, 38, 38, 255)%Z).
  split; [discriminate |]. split; [| reflexivity].
  apply Forall_replicate. reflexivity.
Defined.

(** ** Where the nine regions lie *)

(** X7.  The sample centres form a grid centred on the frame: the centre
    of column [col] is the middle of the width shifted by [col - 1] steps,
    the centre of row [row] the middle of the height shifted by [row - 1]
    steps, one step being a sixth of the shorter side. *)
Theorem sample_centers_closed_form (canvas : Canvas) (row col : nat) :
  centerX canvas col
  = IZR (width canvas) / 2
    + (INR col - 1) * (Rmin (IZR (width canvas)) (IZR (height canvas)) / 6) /\
  centerY canvas row
  = IZR (height canvas) / 2
    + (INR row - 1) * (Rmin (IZR (width canvas)) (IZR (height canvas)) / 6).
Proof. apply centers_closed_form. Qed.

Lemma Rmin_bounds (w h : R) : Rmin w h <= w /\ Rmin w h <= h.
Proof. split; [apply Rmin_l | apply Rmin_r]. Qed.

Lemma INR_below_3 (n : nat) : (n < 3)%nat -> 0 <= INR n <= 2.
Proof.
  intros Hn. destruct n as [| [| [| n]]]; simpl; try lra. lia.
Qed.

(** X8.  On a frame at least 15 pixels wide and high, each of the nine
    requested 10x10 regions lies inside the frame. *)
Theorem sample_regions_inside_frame (canvas : Canvas) (row col : nat) :
  (15 <= width canvas)%Z -> (15 <= height canvas)%Z ->
  (row < 3)%nat -> (col < 3)%nat ->
  0 <= centerX canvas col - 5 /\
  centerX canvas col - 5 + 10 <= IZR (width canvas) /\
  0 <= centerY canvas row - 5 /\
  centerY canvas row - 5 + 10 <= IZR (height canvas).
Proof.
  intros Hw Hh Hrow Hcol.
  apply IZR_le in Hw, Hh.
  destruct (centers_closed_form canvas row col) as [-> ->].
  destruct (Rmin_bounds (IZR (width canvas)) (IZR (height canvas))) as [Hl Hr].
  assert (Hmin : 15 <= Rmin (IZR (width canvas)) (IZR (height canvas)))
    by (apply Rmin_glb; assumption).
  set (m := Rmin (IZR (width canvas)) (IZR (height canvas))) in *.
  pose proof (INR_below_3 row Hrow) as Hr3.
  pose proof (INR_below_3 col Hcol) as Hc3.
  assert (Hcm : - (m / 6) <= (INR col - 1) * (m / 6) <= m / 6) by nra.
  assert (Hrm : - (m / 6) <= (INR row - 1) * (m / 6) <= m / 6) by nra.
  lra.
Qed.

Lemma sample_regions_inside_frame_witness :
  0 <= centerX (mkCanvas 640 480 (fun _ _ _ _ => [])) 2 - 5 /\
  centerX (mkCanvas 640 480 (fun _ _ _ _ => [])) 2 - 5 + 10 <= IZR 640 /\
  0 <= centerY (mkCanvas 640 480 (fun _ _ _ _ => [])) 0 - 5 /\
  centerY (mkCanvas 640 480 (fun _ _ _ _ => [])) 0 - 5 + 10 <= IZR 480.
Proof.
  apply (sample_regions_inside_frame
           (mkCanvas 640 480 (fun _ _ _ _ => [])) 0 2); simpl; lia.
Defined.

(** X9.  On a frame whose shorter side is at least 60 pixels the
    requested regions of different columns do not overlap, nor do those of
    different rows: consecutive centres are at least 10 pixels apart. *)
Theorem sample_regions_disjoint (canvas : Canvas) (i j : nat) :
  (60 <= width canvas)%Z -> (60 <= height canvas)%Z ->
  (i < j)%nat ->
  centerX canvas i - 5 + 10 <= centerX canvas j - 5 /\
  centerY canvas i - 5 + 10 <= centerY canvas j - 5.
Proof. apply centers_apart. Qed.

Lemma sample_regions_disjoint_witness :
  centerX (mkCanvas 1280 720 (fun _ _ _ _ => [])) 0 - 5 + 10
  <= centerX (mkCanvas 1280 720 (fun _ _ _ _ => [])) 1 - 5 /\
  centerY (mkCanvas 1280 720 (fun _ _ _ _ => [])) 0 - 5 + 10
  <= centerY (mkCanvas 1280 720 (fun _ _ _ _ => [])) 1 - 5.
Proof.
  apply (sample_regions_disjoint
           (mkCanvas 1280 720 (fun _ _ _ _ => [])) 0 1); simpl; lia.
Defined.

(** ** Lightness grows with the channels *)

Lemma gamma_expand_mono (v v' : R) :
  v <= v' -> Spec.gamma_expand v <= Spec.gamma_expand v'.
Proof.
  intros Hle.
  destruct (Rle_dec v 0.04045) as [Hv | Hv];
    destruct (Rle_dec v' 0.04045) as [Hv' | Hv'].
  - rewrite !gamma_expand_linear by assumption. lra.
  - rewrite gamma_expand_linear by assumption.
    rewrite gamma_expand_power by lra.
    apply Rle_trans with (0.04045 / 12.92); [lra |].
    assert (Hbase : (0.04045 + 0.055) / 1.055 <= (v' + 0.055) / 1.055)
      by (apply Rmult_le_compat_r; lra).
    assert (Hpos : 0 < (0.04045 + 0.055) / 1.055) by lra.
    assert (Hjunction : (0.04045 / 12.92) ^ 5
                        <= ((0.04045 + 0.055) / 1.055) ^ 12) by lra.
    assert (He : 2.4 * INR 5 = INR 12) by (simpl; lra).
    generalize dependent ((0.04045 + 0.055) / 1.055). intros base0 Hbase0 Hpos0 Hj.
    generalize dependent ((v' + 0.055) / 1.055). intros base Hbase.
    apply (Rpower_lower 2.4 12 5 ltac:(lia) He); [lra | lra |].
    apply Rle_trans with (base0 ^ 12); [exact Hj |].
    apply pow_incr. lra.
  - lra.
  - rewrite !gamma_expand_power by lra.
    apply Rle_Rpower_l; [lra |]. split.
    + apply Rdiv_lt_0_compat; lra.
    + apply Rmult_le_compat_r; lra.
Qed.

Lemma lab_f_mono (x x' : R) : x <= x' -> Spec.lab_f x <= Spec.lab_f x'.
Proof.
  intros Hle.
  destruct (Rgt_dec x 0.008856) as [Hx | Hx];
    destruct (Rgt_dec x' 0.008856) as [Hx' | Hx']; unfold Rgt in *.
  - rewrite !lab_f_cube_root by assumption.
    apply Rle_Rpower_l; lra.
  - lra.
  - rewrite (lab_f_cube_root x') by assumption.
    unfold Spec.lab_f at 1.
    destruct (Rgt_dec x 0.008856) as [Hgt | _]; [unfold Rgt in Hgt; lra |].
    apply Rle_trans with (7.787 * 0.008856 + 16 / 116); [lra |].
    assert (He : / 3 * INR 3 = INR 1) by (simpl; lra).
    apply (Rpower_lower (/ 3) 1 3 ltac:(lia) He); [lra | lra |].
    rewrite pow_1. lra.
  - unfold Spec.lab_f.
    destruct (Rgt_dec x 0.008856) as [Hgt | _]; [unfold Rgt in Hgt; lra |].
    destruct (Rgt_dec x' 0.008856) as [Hgt | _]; [unfold Rgt in Hgt; lra |].
    lra.
Qed.

(** X10.  The lightness computed by [rgbToLab] never decreases when the
    channels grow: if no channel of one input exceeds the same channel of
    another, neither does its lightness. *)
Theorem lightness_monotone (r g b r' g' b' : R) :
  r <= r' -> g <= g' -> b <= b' ->
  fst (fst (rgbToLab r g b)) <= fst (fst (rgbToLab r' g' b')).
Proof.
  intros Hr Hg Hb. rewrite !rgbToLab_spec_eq.
  unfold Spec.rgb_to_lab, Spec.to_xyz, Spec.matrix, Spec.dot,
    Spec.white_point, Spec.normalize. simpl fst.
  pose proof (gamma_expand_mono (r / 255) (r' / 255) ltac:(lra)) as Hrl.
  pose proof (gamma_expand_mono (g / 255) (g' / 255) ltac:(lra)) as Hgl.
  pose proof (gamma_expand_mono (b / 255) (b' / 255) ltac:(lra)) as Hbl.
  set (rl := Spec.gamma_expand (r / 255)) in *.
  set (gl := Spec.gamma_expand (g / 255)) in *.
  set (bl := Spec.gamma_expand (b / 255)) in *.
  set (rl' := Spec.gamma_expand (r' / 255)) in *.
  set (gl' := Spec.gamma_expand (g' / 255)) in *.
  set (bl' := Spec.gamma_expand (b' / 255)) in *.
  pose proof (lab_f_mono ((21.26 * rl + 71.52 * gl + 7.22 * bl) / 100.000)
                ((21.26 * rl' + 71.52 * gl' + 7.22 * bl') / 100.000)
                ltac:(lra)) as Hfy.
  lra.
Qed.

Lemma lightness_monotone_witness :
  fst (fst (rgbToLab 10 20 30)) <= fst (fst (rgbToLab 10 200 30)).
Proof. apply lightness_monotone; lra. Defined.

(** ** The cube state under scans *)

(** X11.  After [handleFaceScan] the face key holds the scanned face;
    scanning the same key again replaces it (the last scan wins); scans of
    different keys can be applied in either order. *)
Theorem handleFaceScan_lookup_overwrite_commute (prev : CubeState)
    (k k' : string) (d d' : Face) :
  handleFaceScan k d prev !! k = Some d /\
  handleFaceScan k d' (handleFaceScan k d prev) = handleFaceScan k d' prev /\
  (k <> k' ->
   handleFaceScan k d (handleFaceScan k' d' prev)
   = handleFaceScan k' d' (handleFaceScan k d prev)).
Proof.
  unfold handleFaceScan. split; [apply lookup_insert_eq |].
  split; [apply insert_insert_eq |].
  intros Hne. apply insert_insert_ne. exact Hne.
Qed.

Lemma handleFaceScan_lookup_overwrite_commute_witness :
  handleFaceScan "F" (createFace red)
    (handleFaceScan "B" (createFace white) INITIAL_CUBE_STATE)
  = handleFaceScan "B" (createFace white)
      (handleFaceScan "F" (createFace red) INITIAL_CUBE_STATE).
Proof.
  apply (handleFaceScan_lookup_overwrite_commute INITIAL_CUBE_STATE
           "F" "B" (createFace red) (createFace white)).
  discriminate.
Defined.

Lemma dom_INITIAL_CUBE_STATE :
  dom INITIAL_CUBE_STATE = (list_to_set faceKeys : gset string).
Proof.
  unfold INITIAL_CUBE_STATE, faceKeys. rewrite !dom_insert_L, dom_empty_L.
  simpl. set_solver.
Qed.

Lemma scanAll_dom (calls : list (string * Face)) :
  forall prev : CubeState,
    Forall (fun call => fst call ∈ dom prev) calls ->
    dom (scanAll calls prev) = dom prev.
Proof.
  induction calls as [| [k d] rest IH]; intros prev Hall; [reflexivity |].
  inversion Hall as [| ? ? Hk Hrest]; subst. simpl in Hk.
  assert (Hdom : dom (handleFaceScan k d prev) = dom prev).
  { unfold handleFaceScan. rewrite dom_insert_L.
    apply subseteq_union_1_L, singleton_subseteq_l. exact Hk. }
  simpl. rewrite IH; [exact Hdom |].
  rewrite Hdom. exact Hrest.
Qed.

(** X12.  Scans under the six face keys never add or remove a key: from
    [INITIAL_CUBE_STATE] the cube state always has exactly the keys F, B,
    U, D, L, R. *)
Theorem scanAll_keeps_face_keys (calls : list (string * Face)) :
  Forall (fun call => In (fst call) faceKeys) calls ->
  dom (scanAll calls INITIAL_CUBE_STATE) = (list_to_set faceKeys : gset string)
  /\ stdpp.base.size (scanAll calls INITIAL_CUBE_STATE) = 6%nat.
Proof.
  intros Hall.
  assert (Hdom : dom (scanAll calls INITIAL_CUBE_STATE)
                 = (list_to_set faceKeys : gset string)).
  { rewrite scanAll_dom; [apply dom_INITIAL_CUBE_STATE |].
    eapply Forall_impl; [exact Hall |].
    intros call Hin. rewrite dom_INITIAL_CUBE_STATE.
    apply elem_of_list_to_set, list_elem_of_In. exact Hin. }
  split; [exact Hdom |].
  rewrite <- size_dom, Hdom. reflexivity.
Qed.

Lemma scanAll_keeps_face_keys_witness :
  dom (scanAll [("U"%string, createFace red); ("F"%string, createFace blue)]
         INITIAL_CUBE_STATE)
  = (list_to_set faceKeys : gset string)
  /\ stdpp.base.size
       (scanAll [("U"%string, createFace red); ("F"%string, createFace blue)]
          INITIAL_CUBE_STATE) = 6%nat.
Proof.
  apply scanAll_keeps_face_keys.
  repeat constructor; simpl; tauto.
Defined.

Lemma handleFaceScan_size (k : string) (d : Face) (prev : CubeState) :
  (stdpp.base.size prev <= stdpp.base.size (handleFaceScan k d prev))%nat.
Proof.
  unfold handleFaceScan. rewrite map_size_insert.
  destruct (prev !! k); simpl; lia.
Qed.

Lemma scanAll_size (calls : list (string * Face)) :
  forall prev : CubeState,
    (stdpp.base.size prev <= stdpp.base.size (scanAll calls prev))%nat.
Proof.
  induction calls as [| [k d] rest IH]; intros prev; [simpl; lia |].
  simpl. etransitivity; [apply (handleFaceScan_size k d) |]. apply IH.
Qed.

Lemma size_INITIAL_CUBE_STATE : stdpp.base.size INITIAL_CUBE_STATE = 6%nat.
Proof. rewrite <- size_dom, dom_INITIAL_CUBE_STATE. reflexivity. Qed.

(** X13.  The scanner's callback switches to the solve view at every
    report, the first one included: the cube state starts with six keys
    and scans never remove one, so the test
    [Object.keys(cubeState).length >= 5] always holds. *)
Theorem onScanComplete_always_solve (calls : list (string * Face))
    (key : string) (data : Face) (v : View) :
  snd (onScanComplete key data (scanAll calls INITIAL_CUBE_STATE, v)) = solve.
Proof.
  unfold onScanComplete. cbn [snd].
  pose proof (scanAll_size calls INITIAL_CUBE_STATE) as Hsize.
  rewrite size_INITIAL_CUBE_STATE in Hsize.
  destruct (5 <=? stdpp.base.size (scanAll calls INITIAL_CUBE_STATE))%nat eqn:Hleb;
    [reflexivity |].
  apply Nat.leb_gt in Hleb. lia.
Qed.

Lemma scanInvariant_initial : scanInvariant initialApp.
Proof.
  split; [left; reflexivity |]. split; [| reflexivity].
  simpl. rewrite size_INITIAL_CUBE_STATE. lia.
Qed.

Lemma captureFace_first (canvas : Canvas) :
  captureFace (Some canvas) []
  = (Some ("F"%string, detectFace canvas), ["Front"%string]).
Proof. reflexivity. Qed.

Lemma scanInvariant_act (st : AppState) (a : Action) :
  scanInvariant st -> scanInvariant (act st a).
Proof.
  intros (Hscanner & Hsize & Hfaces). destruct a as [v | frame]; cbn [act].
  - unfold setView, render.
    split; [| split; assumption]. cbn [scanner view].
    destruct v; auto.
    destruct Hscanner as [-> | [-> _]]; auto.
  - unfold pressCapture.
    destruct Hscanner as [Hnone | [Hsome Hview]].
    + rewrite Hnone. split; [left; exact Hnone | split; assumption].
    + rewrite Hsome. destruct frame as [canvas |].
      * rewrite captureFace_first. unfold onScanComplete.
        apply Nat.leb_le in Hsize. rewrite Hsize. apply Nat.leb_le in Hsize.
        unfold render. split; [left; reflexivity |]. cbn [cubeState].
        split.
        -- pose proof (handleFaceScan_size "F" (detectFace canvas)
                         (cubeState st)). lia.
        -- intros k Hk. rewrite <- (Hfaces k Hk).
           unfold handleFaceScan. apply lookup_insert_ne. congruence.
      * rewrite captureFace_guard by (left; reflexivity).
        split; [right; split; assumption | split; assumption].
Qed.

(** X14.  In the application as wired, whatever the user navigates and
    captures, only the face under key F is ever replaced: the first report
    of a scanner already switches to the solve view, which unmounts the
    scanner, and a scanner mounted again starts anew at F.  The faces
    under every other key stay those of [INITIAL_CUBE_STATE]. *)
Theorem app_only_records_front_face (actions : list Action) (k : string) :
  k <> "F"%string ->
  cubeState (fold_left act actions initialApp) !! k = INITIAL_CUBE_STATE !! k.
Proof.
  intros Hk.
  assert (Hinv : forall st, scanInvariant st ->
                   scanInvariant (fold_left act actions st)).
  { induction actions as [| a rest IH]; intros st Hst; [exact Hst |].
    simpl. apply IH, scanInvariant_act, Hst. }
  destruct (Hinv initialApp scanInvariant_initial) as (_ & _ & Hfaces).
  apply Hfaces. exact Hk.
Qed.

Lemma app_only_records_front_face_witness :
  cubeState
    (fold_left act
       [Navigate scan;
        PressCapture (Some (mkCanvas 640 480 (fun _ _ _ _ => [])));
        Navigate scan;
        PressCapture (Some (mkCanvas 640 480 (fun _ _ _ _ => [])))]
       initialApp) !! "B"%string
  = INITIAL_CUBE_STATE !! "B"%string.
Proof. apply app_only_records_front_face. discriminate. Defined.

(** X15.  If one scanner stays mounted for six presses with a frame each,
    applying its six reports with [handleFaceScan] leaves under F, B, U,
    D, L and R the faces detected in the first to sixth frame, whatever
    the cube state held before. *)
Theorem full_session_records_every_face (prev : CubeState)
    (cF cB cU cD cL cR : Canvas) :
  let final :=
    scanAll (fst (captureSession (map Some [cF; cB; cU; cD; cL; cR]) []))
      prev in
  final !! "F"%string = Some (detectFace cF) /\
  final !! "B"%string = Some (detectFace cB) /\
  final !! "U"%string = Some (detectFace cU) /\
  final !! "D"%string = Some (detectFace cD) /\
  final !! "L"%string = Some (detectFace cL) /\
  final !! "R"%string = Some (detectFace cR).
Proof.
  intros final. subst final.
  change (@nil string) with (take 0%nat faces).
  rewrite captureSession_canvases by (simpl; lia).
  unfold scanAll, handleFaceScan. simpl.
  repeat split; simplify_map_eq; reflexivity.
Qed.

(** ** Solution playback *)

(** X16.  After [startPlayback idx] on an existing solution of [n] moves,
    [k <= n] runs of the effect show move [k] next and keep playing; run
    [n + 1] stops the playback with the index at [n]; and from there the
    effect changes nothing. *)
Theorem playback_runs_to_end (st : Playback) (idx : nat)
    (solution : Solution) :
  solutions st !! idx = Some solution ->
  (forall k : nat, (k <= length (moves solution))%nat ->
     playbackRuns k (startPlayback idx st)
     = Some (mkPlayback (solutions st) (Some idx) k true)) /\
  playbackRuns (S (length (moves solution))) (startPlayback idx st)
  = Some (mkPlayback (solutions st) (Some idx) (length (moves solution)) false)
  /\
  playbackEffect
    (mkPlayback (solutions st) (Some idx) (length (moves solution)) false)
  = Some (mkPlayback (solutions st) (Some idx) (length (moves solution)) false).
Proof.
  intros Hsol. set (n := length (moves solution)).
  assert (Hfrom : forall (j k : nat), (j + k <= n)%nat ->
            playbackRuns k (mkPlayback (solutions st) (Some idx) j true)
            = Some (mkPlayback (solutions st) (Some idx) (j + k) true)).
  { intros j k. revert j. induction k as [| k IH]; intros j Hjk.
    - simpl. rewrite Nat.add_0_r. reflexivity.
    - simpl. unfold playbackEffect. cbn [isPlaying activeSolutionIdx
        solutions playbackIdx]. rewrite Hsol. fold n.
      destruct (j <? n)%nat eqn:Hlt; [| apply Nat.ltb_ge in Hlt; lia].
      rewrite IH by lia. do 2 f_equal. lia. }
  assert (Hlast : playbackEffect (mkPlayback (solutions st) (Some idx) n true)
                  = Some (mkPlayback (solutions st) (Some idx) n false)).
  { unfold playbackEffect. cbn [isPlaying activeSolutionIdx solutions
      playbackIdx]. rewrite Hsol. fold n. rewrite Nat.ltb_irrefl. reflexivity. }
  split; [| split].
  - intros k Hk. exact (Hfrom 0%nat k Hk).
  - assert (Hsplit : forall (m : nat) (s : Playback),
              playbackRuns (S m) s
              = match playbackRuns m s with
                | Some s' => playbackEffect s'
                | None => None
                end).
    { induction m as [| m IHm]; intros s.
      - simpl. destruct (playbackEffect s); reflexivity.
      - change (playbackRuns (S (S m)) s)
          with (match playbackEffect s with
                | Some s' => playbackRuns (S m) s'
                | None => None
                end).
        destruct (playbackEffect s) as [s' |] eqn:Hs.
        + rewrite IHm. simpl. rewrite Hs. reflexivity.
        + simpl. rewrite Hs. reflexivity. }
    rewrite Hsplit. unfold startPlayback.
    rewrite (Hfrom 0%nat n) by lia. exact Hlast.
  - reflexivity.
Qed.

Lemma playback_runs_to_end_witness :
  playbackRuns 3
    (startPlayback 0
       (mkPlayback [mkSolution ["R"; "U"]%string "Korf Optimal" 2500 None]
          None 0 false))
  = Some (mkPlayback [mkSolution ["R"; "U"]%string "Korf Optimal" 2500 None]
            (Some 0%nat) 2 false).
Proof.
  exact (proj1 (proj2 (playback_runs_to_end
           (mkPlayback [mkSolution ["R"; "U"]%string "Korf Optimal" 2500 None]
              None 0 false) 0
           (mkSolution ["R"; "U"]%string "Korf Optimal" 2500 None)
           eq_refl))).
Defined.

(** X17.  While the active index names a solution and the playback index
    is within its moves, a run of the effect never throws and keeps both
    facts; when the active index names no solution and playback is on, the
    effect throws. *)
Theorem playbackEffect_in_bounds (st : Playback) (idx : nat) :
  activeSolutionIdx st = Some idx ->
  (forall solution : Solution,
      solutions st !! idx = Some solution ->
      (playbackIdx st <= length (moves solution))%nat ->
      exists st' : Playback,
        playbackEffect st = Some st' /\
        solutions st' = solutions st /\
        activeSolutionIdx st' = Some idx /\
        (playbackIdx st' <= length (moves solution))%nat) /\
  (solutions st !! idx = None -> isPlaying st = true ->
   playbackEffect st = None).
Proof.
  intros Hactive. split.
  - intros solution Hsol Hidx. unfold playbackEffect.
    rewrite Hactive, Hsol.
    destruct (isPlaying st); [| eauto].
    destruct (playbackIdx st <? length (moves solution))%nat eqn:Hlt.
    + apply Nat.ltb_lt in Hlt. eexists. split; [reflexivity |].
      cbn [solutions activeSolutionIdx playbackIdx].
      repeat split; lia.
    + eexists. split; [reflexivity |].
      cbn [solutions activeSolutionIdx playbackIdx]. auto.
  - intros Hnone Hplay. unfold playbackEffect.
    rewrite Hplay, Hactive, Hnone. reflexivity.
Qed.

Lemma playbackEffect_in_bounds_witness :
  playbackEffect (startPlayback 3 (mkPlayback [] None 0 false)) = None.
Proof.
  apply (proj2 (playbackEffect_in_bounds
                  (startPlayback 3 (mkPlayback [] None 0 false)) 3 eq_refl));
    reflexivity.
Defined.

(** ** The stickers of the cube view *)

Lemma faceKeys_cases (key : string) :
  In key faceKeys ->
  key = "F"%string \/ key = "B"%string \/ key = "U"%string \/
  key = "D"%string \/ key = "L"%string \/ key = "R"%string.
Proof. simpl. intuition auto. Qed.

Lemma index_cases (i : Z) :
  (0 <= i <= 2)%Z -> i = 0%Z \/ i = 1%Z \/ i = 2%Z.
Proof. lia. Qed.

Lemma allStickers_cells (key : string) (row col : Z) :
  In (key, row, col) allStickers <->
  In key faceKeys /\ (0 <= row <= 2)%Z /\ (0 <= col <= 2)%Z.
Proof.
  split.
  - intros Hin.
    assert (Hall : Forall (fun cell : string * Z * Z =>
              fst (fst cell) ∈ faceKeys /\
              (0 <= snd (fst cell) <= 2)%Z /\ (0 <= snd cell <= 2)%Z)
              allStickers).
    { apply (bool_decide_eq_true_1 _). vm_compute. reflexivity. }
    rewrite Forall_forall in Hall. apply list_elem_of_In in Hin.
    destruct (Hall _ Hin) as (Hkey & Hrow & Hcol).
    apply list_elem_of_In in Hkey. auto.
  - intros (Hkey & Hrow & Hcol).
    apply faceKeys_cases in Hkey. apply index_cases in Hrow, Hcol.
    destruct Hkey as [-> | [-> | [-> | [-> | [-> | ->]]]]];
      destruct Hrow as [-> | [-> | ->]];
      destruct Hcol as [-> | [-> | ->]];
      vm_compute; tauto.
Qed.

(** X18.  The 27 cubies carry 54 stickers, and every cell of every face
    is shown by exactly one of them: the cells read are pairwise distinct,
    and they are exactly the cells [(key, row, col)] with [key] one of the
    six face keys and [row], [col] in 0..2. *)
Theorem stickers_cover_each_cell_once :
  length allStickers = 54%nat /\
  NoDup allStickers /\
  forall (key : string) (row col : Z),
    In (key, row, col) allStickers <->
    In key faceKeys /\ (0 <= row <= 2)%Z /\ (0 <= col <= 2)%Z.
Proof.
  split; [reflexivity |]. split; [| exact allStickers_cells].
  apply (bool_decide_eq_true_1 (NoDup allStickers)). vm_compute. reflexivity.
Qed.

Lemma stickers_cover_each_cell_once_witness :
  In ("U"%string, 2%Z, 0%Z) allStickers.
Proof.
  apply (proj2 (proj2 stickers_cover_each_cell_once)).
  split; [simpl; tauto | lia].
Defined.

(** X19.  The number of stickers on a cubie of the grid is the number of
    its coordinates that are 1 or -1: none on the inner cubie, one on a
    face centre, two on an edge, three on a corner. *)
Theorem cubie_sticker_count (x y z : Z) :
  In x gridCoords -> In y gridCoords -> In z gridCoords ->
  Z.of_nat (length (cubieStickers x y z)) = (Z.abs x + Z.abs y + Z.abs z)%Z.
Proof.
  unfold gridCoords. simpl.
  intros [<- | [<- | [<- | []]]] [<- | [<- | [<- | []]]]
         [<- | [<- | [<- | []]]]; reflexivity.
Qed.

Lemma cubie_sticker_count_witness :
  Z.of_nat (length (cubieStickers 1 (-1) 0)) = 2%Z.
Proof. apply (cubie_sticker_count 1 (-1) 0); simpl; tauto. Defined.

Lemma createFace_cell (c : Color) (row col : Z) :
  (0 <= row <= 2)%Z -> (0 <= col <= 2)%Z ->
  match at_index (createFace c) row with
  | Some rowColors => at_index rowColors col
  | None => None
  end = Some c.
Proof.
  intros Hrow Hcol. apply index_cases in Hrow, Hcol.
  destruct Hrow as [-> | [-> | ->]]; destruct Hcol as [-> | [-> | ->]];
    reflexivity.
Qed.

(** X20.  Every sticker placed on a face that [createFace c] filled shows
    the colour [c]; in particular the view of [INITIAL_CUBE_STATE] has
    nine stickers of its own colour on each face, and no sticker read
    misses. *)
Theorem stickers_of_uniform_face (state : CubeState) (c : Color)
    (key : string) (row col : Z) :
  state !! key = Some (createFace c) ->
  In (key, row, col) allStickers ->
  stickerColor state (key, row, col) = Some c.
Proof.
  intros Hface Hin.
  apply allStickers_cells in Hin.
  destruct Hin as (_ & Hrow & Hcol).
  unfold stickerColor. cbv beta iota. unfold Face in *. rewrite Hface.
  apply createFace_cell; assumption.
Qed.

Lemma stickers_of_uniform_face_witness :
  stickerColor INITIAL_CUBE_STATE ("R"%string, 0%Z, 2%Z) = Some red.
Proof.
  apply stickers_of_uniform_face; [reflexivity |].
  vm_compute. tauto.
Defined.

Lemma at_index_in_range {A : Type} (xs : list A) (i : Z) :
  (0 <= i < Z.of_nat (length xs))%Z -> exists x : A, at_index xs i = Some x.
Proof.
  intros Hi. unfold at_index.
  destruct (i <? 0)%Z eqn:Hneg; [apply Z.ltb_lt in Hneg; lia |].
  apply lookup_lt_is_Some. lia.
Qed.

(** X21.  On a cube state that holds a 3x3 face under each of the six
    face keys, every sticker read finds a colour: no face, row or cell is
    missing for any of the 54 stickers. *)
Theorem stickers_defined_on_3x3_faces (state : CubeState) :
  (forall key : string, In key faceKeys ->
     exists face : Face,
       state !! key = Some face /\ length face = 3%nat /\
       Forall (fun rowColors => length rowColors = 3%nat) face) ->
  Forall (fun cell => exists c : Color, stickerColor state cell = Some c)
    allStickers.
Proof.
  intros Hstate. apply Forall_forall. intros [[key row] col] Hin.
  apply list_elem_of_In, allStickers_cells in Hin.
  destruct Hin as (Hkey & Hrow & Hcol).
  destruct (Hstate key Hkey) as (face & Hface & Hlen & Hrows).
  unfold stickerColor. cbv beta iota. unfold Face in *. rewrite Hface.
  destruct (at_index_in_range face row ltac:(lia)) as [rowColors Hr].
  rewrite Hr. apply at_index_in_range.
  unfold at_index in Hr.
  destruct (row <? 0)%Z; [discriminate |].
  apply list_elem_of_lookup_2 in Hr.
  rewrite Forall_forall in Hrows. rewrite (Hrows _ Hr). lia.
Qed.

Lemma stickers_defined_on_3x3_faces_witness :
  Forall (fun cell => exists c : Color,
            stickerColor INITIAL_CUBE_STATE cell = Some c) allStickers.
Proof.
  apply stickers_defined_on_3x3_faces.
  intros key Hkey. apply faceKeys_cases in Hkey.
  destruct Hkey as [-> | [-> | [-> | [-> | [-> | ->]]]]];
    eexists; (split; [reflexivity |]); split; try reflexivity;
    repeat constructor.
Defined.

(** ** The dashboard *)

Lemma firstWord_split (s : string) :
  exists rest : string,
    s = (firstWord s ++ rest)%string /\
    (rest = EmptyString \/ exists rest', rest = String " " rest').
Proof.
  induction s as [| c s IH].
  - exists EmptyString. split; [reflexivity | left; reflexivity].
  - simpl. destruct (Ascii.eqb c " ") eqn:Hc.
    + apply Ascii.eqb_eq in Hc. subst c.
      exists (String " " s). split; [reflexivity | right; eauto].
    + destruct IH as (rest & Hs & Hrest).
      exists rest. split; [| exact Hrest].
      rewrite Hs at 1. reflexivity.
Qed.

Lemma firstWord_no_space (s : string) :
  ~ In " "%char (list_ascii_of_string (firstWord s)).
Proof.
  induction s as [| c s IH]; simpl; [tauto |].
  destruct (Ascii.eqb c " ") eqn:Hc; simpl; [tauto |].
  intros [Heq | Hin]; [| exact (IH Hin)].
  subst c. rewrite Ascii.eqb_refl in Hc. discriminate.
Qed.

(** X22.  The chart entry of a solution carries its number of moves and
    its time, and as name the part of the solver name before the first
    space: the name contains no space, and the solver name is that name
    followed by nothing or by a space and the remainder. *)
Theorem data_entry_of_solution (sols : list Solution) (i : nat)
    (s : Solution) :
  sols !! i = Some s ->
  exists name rest : string,
    data sols !! i = Some (name, length (moves s), timeMs s) /\
    ~ In " "%char (list_ascii_of_string name) /\
    solverName s = (name ++ rest)%string /\
    (rest = EmptyString \/ exists rest', rest = String " " rest').
Proof.
  intros Hs. destruct (firstWord_split (solverName s)) as (rest & Hname & Hrest).
  exists (firstWord (solverName s)), rest.
  split; [| split; [apply firstWord_no_space | split; assumption]].
  unfold data. rewrite list_lookup_fmap, Hs. reflexivity.
Qed.

Lemma data_entry_of_solution_witness :
  exists name rest : string,
    data [mkSolution ["R"; "U"]%string "Korf Optimal" 2500 None] !! 0%nat
    = Some (name, 2%nat, 2500) /\
    ~ In " "%char (list_ascii_of_string name) /\
    "Korf Optimal"%string = (name ++ rest)%string /\
    (rest = EmptyString \/ exists rest', rest = String " " rest').
Proof.
  exact (data_entry_of_solution
           [mkSolution ["R"; "U"]%string "Korf Optimal" 2500 None] 0
           (mkSolution ["R"; "U"]%string "Korf Optimal" 2500 None) eq_refl).
Defined.

(** X23.  Every bar gets a colour of the palette, in both charts, and the
    bar of a solver in the moves chart never has the colour of its bar in
    the time chart. *)
Theorem chart_fills_defined_and_distinct (index : nat) :
  exists mf tf : string,
    movesFill index = Some mf /\ timeFill index = Some tf /\ mf <> tf.
Proof.
  unfold movesFill, timeFill. change (length COLORS) with 4%nat.
  replace ((index + 2) mod 4)%nat with ((index mod 4 + 2) mod 4)%nat
    by (rewrite Nat.Div0.add_mod_idemp_l; reflexivity).
  pose proof (Nat.mod_upper_bound index 4 ltac:(lia)) as Hlt.
  destruct (index mod 4)%nat as [| [| [| [| n]]]]; try lia;
    do 2 eexists; (split; [reflexivity |]); (split; [reflexivity |]);
    discriminate.
Qed.

(** ** How far a colour may drift from a centroid *)

Lemma dot_square_bound (u0 u1 u2 w0 w1 w2 : R) :
  (u0 * w0 + u1 * w1 + u2 * w2) * (u0 * w0 + u1 * w1 + u2 * w2)
  <= (u0 * u0 + u1 * u1 + u2 * u2) * (w0 * w0 + w1 * w1 + w2 * w2).
Proof.
  pose proof (Rle_0_sqr (u0 * w1 - u1 * w0)) as H01.
  pose proof (Rle_0_sqr (u0 * w2 - u2 * w0)) as H02.
  pose proof (Rle_0_sqr (u1 * w2 - u2 * w1)) as H12.
  unfold Rsqr in *. lra.
Qed.

(** A point nearer than 16 to one of two points that are at least 32
    apart is nearer to that one. *)
Lemma ball_separation (p c c' : Triple) :
  sqDistance p c < 256 -> 1024 <= sqDistance c c' ->
  sqDistance p c < sqDistance p c'.
Proof.
  destruct p as [[p0 p1] p2], c as [[c0 c1] c2], c' as [[d0 d1] d2].
  unfold sqDistance. intros Hnear Hfar.
  set (u0 := p0 - c0) in *. set (u1 := p1 - c1) in *. set (u2 := p2 - c2) in *.
  set (w0 := d0 - c0). set (w1 := d1 - c1). set (w2 := d2 - c2).
  replace (p0 - d0) with (u0 - w0) by (unfold u0, w0; lra).
  replace (p1 - d1) with (u1 - w1) by (unfold u1, w1; lra).
  replace (p2 - d2) with (u2 - w2) by (unfold u2, w2; lra).
  replace ((c0 - d0) * (c0 - d0) + (c1 - d1) * (c1 - d1)
           + (c2 - d2) * (c2 - d2))
    with (w0 * w0 + w1 * w1 + w2 * w2) in Hfar
    by (unfold w0, w1, w2; lra).
  pose proof (dot_square_bound u0 u1 u2 w0 w1 w2) as Hcs.
  set (t := u0 * w0 + u1 * w1 + u2 * w2) in *.
  set (U := u0 * u0 + u1 * u1 + u2 * u2) in *.
  set (W := w0 * w0 + w1 * w1 + w2 * w2) in *.
  assert (HU : 0 <= U).
  { unfold U. pose proof (Rle_0_sqr u0). pose proof (Rle_0_sqr u1).
    pose proof (Rle_0_sqr u2). unfold Rsqr in *. lra. }
  assert (Ht : 2 * t < W).
  { destruct (Rlt_dec (2 * t) W) as [Hlt | Hge]; [exact Hlt | exfalso].
    assert (Hsq : W * W <= 4 * (t * t)) by nra.
    assert (HUW : U * W < 256 * W) by nra.
    nra. }
  replace ((u0 - w0) * (u0 - w0) + (u1 - w1) * (u1 - w1)
           + (u2 - w2) * (u2 - w2))
    with (U - 2 * t + W) by (unfold U, t, W; lra).
  lra.
Qed.

(** X24.  A LAB point at distance less than 16 from the centroid of a
    label is given that label: the six centroids are more than 32 apart
    from each other, so no other centroid can be as near. *)
Theorem closestToLab_within_16_of_centroid (lab : Triple) (c : Color)
    (centroid : Triple) :
  In (c, centroid) COLOR_CENTROIDS ->
  distance lab centroid < 16 ->
  closestToLab lab = c.
Proof.
  intros Hin Hnear.
  assert (Hsq : sqDistance lab centroid < 256).
  { rewrite distance_sqrt in Hnear.
    destruct (Rlt_dec (sqDistance lab centroid) 256) as [H | H];
      [exact H | exfalso].
    assert (H16 : sqrt 256 <= sqrt (sqDistance lab centroid))
      by (apply sqrt_le_1_alt; lra).
    replace 256 with (16 * 16) in H16 by lra.
    rewrite sqrt_square in H16 by lra. lra. }
  assert (Hfar : forall (j : nat) (i : nat) (c' : Color) (centroid' : Triple),
             COLOR_CENTROIDS !! i = Some (c, centroid) ->
             COLOR_CENTROIDS !! j = Some (c', centroid') -> j <> i ->
             distance lab centroid < distance lab centroid').
  { intros j i c' centroid' Hi Hj Hne.
    apply distance_lt, ball_separation; [exact Hsq |].
    do 6 (destruct i as [| i];
          [ simpl in Hi; injection Hi as <- <-;
            do 6 (destruct j as [| j];
                  [ simpl in Hj; injection Hj as <- <-;
                    first [ exfalso; apply Hne; reflexivity
                          | simpl; lra ]
                  | ]);
            simpl in Hj; discriminate Hj
          | ]).
    simpl in Hi. discriminate Hi. }
  apply list_elem_of_In, list_elem_of_lookup_1 in Hin.
  destruct Hin as [i Hi].
  apply (closestIn_strict_min lab COLOR_CENTROIDS i c centroid Hi).
  intros j c' centroid' Hj Hne. exact (Hfar j i c' centroid' Hi Hj Hne).
Qed.

Lemma closestToLab_within_16_of_centroid_witness :
  closestToLab (50, 50, 50) = red.
Proof.
  apply (closestToLab_within_16_of_centroid (50, 50, 50) red (45, 60, 45)).
  - simpl. tauto.
  - rewrite distance_sqrt. simpl.
    replace 16 with (sqrt (16 * 16)) by (apply sqrt_square; lra).
    apply sqrt_lt_1; lra.
Defined.
